(** * Index-selection optimizer: the Reader (data normaliser) and the Goal class

    A shallow embedding of [src/reader.py] and [src/goal.py].

    Conventions of the embedding.
    - A Python exception is a value of [exn]; a method that may raise returns
      [result A].  Statements executed in sequence are chained with the bind
      of [result].
    - JSON numbers are read as exact rationals ([Q]); Python's [round] is
      rounding to the nearest integer with ties to even, [math.floor] is
      [Qfloor].  The integers produced by [_upscale] are [Z].  Module
      [Binary64] gives the IEEE-754 reading of the two scaling functions,
      for the one statement that depends on it.
    - Python lists and tuples are [list]; an index assignment [l[i] = v]
      raises [IndexError] out of range, and so does the embedding.
    - The dictionaries [Reader._problem], [Reader._translation] and
      [Reader._settings] have a fixed set of keys and are records here.  For
      the accessors that hand out deep copies the object store is modelled
      explicitly (Module [Store]). *)

From Stdlib Require Import ZArith QArith Qround Qabs Lia Lqa SpecFloat.
From stdpp Require Import base tactics option list strings.

Local Open Scope Z_scope.
Local Open Scope list_scope.

Set Warnings "-register-all".

(** ** Exceptions *)

Inductive exn : Type :=
| AssertionError
| KeyError
| ValueError
| TypeError
| IndexError
| OverflowError
| ZeroDivisionError.

Inductive result (A : Type) : Type :=
| OK (a : A)
| Raise (e : exn).
Arguments OK {A} a.
Arguments Raise {A} e.

#[global] Instance result_ret : MRet result := fun A a => OK a.
#[global] Instance result_bind : MBind result :=
  fun A B f m => match m with OK a => f a | Raise e => Raise e end.

(** [assert c] *)
Definition assert (c : bool) : result unit :=
  if c then OK tt else Raise AssertionError.

(** A [for] loop whose body may raise. *)
Fixpoint for_each {S A : Type} (body : S -> A -> result S) (s : S) (l : list A)
  : result S :=
  match l with
  | [] => OK s
  | x :: l' => s' ← body s x; for_each body s' l'
  end.

(** A comprehension whose element expression may raise. *)
Fixpoint map_each {A B : Type} (f : A -> result B) (l : list A) : result (list B) :=
  match l with
  | [] => OK []
  | x :: l' => y ← f x; ys ← map_each f l'; OK (y :: ys)
  end.

(** The same over [enumerate(l)], counting from [i]. *)
Fixpoint map_enumerate {A B : Type} (f : nat -> A -> result B) (i : nat) (l : list A)
  : result (list B) :=
  match l with
  | [] => OK []
  | x :: l' => y ← f i x; ys ← map_enumerate f (S i) l'; OK (y :: ys)
  end.

(** ** Sequences *)

(** Position of the first occurrence. *)
Fixpoint index_of `{EqDecision A} (x : A) (l : list A) : option nat :=
  match l with
  | [] => None
  | y :: l' => if decide (y = x) then Some 0%nat else S <$> index_of x l'
  end.

(** [t.index(x)]: raises [ValueError] when [x] is not in [t]. *)
Definition tuple_index `{EqDecision A} (t : list A) (x : A) : result nat :=
  match index_of x t with
  | Some i => OK i
  | None => Raise ValueError
  end.

(** [l[i]] *)
Definition getitem {A : Type} (l : list A) (i : nat) : result A :=
  match l !! i with
  | Some x => OK x
  | None => Raise IndexError
  end.

(** [l[i] = v] *)
Definition setitem {A : Type} (l : list A) (i : nat) (v : A) : result (list A) :=
  if decide (i < length l)%nat then OK (<[i := v]> l) else Raise IndexError.

(** [m[i][j] = v] *)
Definition setitem2 {A : Type} (m : list (list A)) (i j : nat) (v : A)
  : result (list (list A)) :=
  row ← getitem m i;
  row' ← setitem row j v;
  setitem m i row'.

(** ** Numbers *)

(** Python's [round(x)] with one argument: nearest integer, ties to even. *)
Definition py_round (x : Q) : Z :=
  let f := Qfloor x in
  match Qcompare (x - inject_Z f) (1 # 2) with
  | Lt => f
  | Gt => f + 1
  | Eq => if Z.even f then f else f + 1
  end.

(** ** The workload input (the parsed JSON of the problem) *)

(** [{"Index OID": ..., "Cost": ...}], an entry of a scan's cost lists. *)
Record index_cost := {
  ic_oid : Z;
  ic_cost : Q
}.

(** An element of ["Scans"]; a sequential cost of [None] is JSON [null]. *)
Record scan := {
  scan_id : string;
  sequential_scan_cost : option Q;
  existing_index_costs : list index_cost;
  possible_index_costs : list index_cost
}.

(** [{"Index": {"Index OID": ...}, "Index Write Overhead": ...}] *)
Record index := {
  index_oid : Z;
  index_write_overhead : Q
}.

Record problem := {
  Scans : list scan;
  Existing_Indexes : list index;
  Possible_Indexes : list index
}.

(** ** The Reader's stored problem *)

(** [Reader._translation] *)
Record translation := {
  Scan_IDs : list string;
  Index_OIDs : list Z
}.

(** [Reader._problem]; [None] entries are Python's [None]. *)
Record problem_data := {
  Number_of_Existing_Indexes : nat;
  Number_of_Possible_Indexes : nat;
  Sequential_Scan_Costs : list (option Z);
  Index_Costs : list (list (option Z));
  Index_IWOs : list (option Z);
  Index_Costs_B : list (list Z);
  Index_Costs_R : list (list (option Z))
}.

Module Reader.

Definition _multiplier : Z := 100.

Definition _upscale (value : Q) : Z :=
  py_round (value * inject_Z _multiplier).

Definition _downscale (value : Z) : Q :=
  inject_Z value / inject_Z _multiplier.

Definition _build_translation (p : problem) : translation :=
  {| Scan_IDs :=
       scan_id <$> filter (fun s => sequential_scan_cost s ≠ None) (Scans p);
     Index_OIDs := index_oid <$> (Existing_Indexes p ++ Possible_Indexes p) |}.

(** Body of the inner loop of [_read_problem] (lines 253-263). *)
Definition read_index_cost (tr : translation) (scan_idx : nat)
    (scan_sequential_cost : Z) (costs : list (list (option Z))) (ic : index_cost)
  : result (list (list (option Z))) :=
  index_idx ← tuple_index (Index_OIDs tr) (ic_oid ic);
  let cost := _upscale (ic_cost ic) in
  if (cost >=? scan_sequential_cost)%Z then OK costs
  else setitem2 costs index_idx scan_idx (Some cost).

(** Body of the loop over the scans (lines 248-263); the state is the pair
    of ["Sequential Scan Costs"] and ["Index Costs"]. *)
Definition read_scan (tr : translation)
    (st : list (option Z) * list (list (option Z))) (s : scan)
  : result (list (option Z) * list (list (option Z))) :=
  scan_idx ← tuple_index (Scan_IDs tr) (scan_id s);
  scan_sequential_cost ←
    match sequential_scan_cost s with
    | Some c => OK (_upscale c)
    | None => Raise TypeError
    end;
  seq ← setitem st.1 scan_idx (Some scan_sequential_cost);
  costs ← for_each (read_index_cost tr scan_idx scan_sequential_cost) st.2
             (existing_index_costs s ++ possible_index_costs s);
  OK (seq, costs).

(** Body of the loop over the indexes (lines 266-268). *)
Definition read_index (tr : translation) (iwos : list (option Z)) (ix : index)
  : result (list (option Z)) :=
  index_idx ← tuple_index (Index_OIDs tr) (index_oid ix);
  setitem iwos index_idx (Some (_upscale (index_write_overhead ix))).

(** The matrix of type B (lines 272-279). *)
Definition costs_B (costs : list (list (option Z))) : list (list Z) :=
  (fun row : list (option Z) =>
     (fun value : option Z => match value with Some _ => 1 | None => 0 end) <$> row)
    <$> costs.

(** The matrix of type R (lines 283-289). *)
Definition costs_R (seq : list (option Z)) (costs : list (list (option Z)))
  : result (list (list (option Z))) :=
  map_each
    (map_enumerate
       (fun j value => match value with
                       | None => getitem seq j
                       | Some c => OK (Some c)
                       end) 0%nat)
    costs.

Definition _read_problem (p : problem) : result (translation * problem_data) :=
  let tr := _build_translation p in
  let num_eind := length (Existing_Indexes p) in
  let num_pind := length (Possible_Indexes p) in
  let seq0 := replicate (length (Scan_IDs tr)) (@None Z) in
  let costs0 :=
    replicate (length (Index_OIDs tr)) (replicate (length (Scan_IDs tr)) (@None Z)) in
  let iwos0 := replicate (length (Index_OIDs tr)) (@None Z) in
  _ ← assert (bool_decide (num_eind < length iwos0)%nat);
  '(seq, costs) ← for_each (read_scan tr) (seq0, costs0) (Scans p);
  iwos ← for_each (read_index tr) iwos0 (Existing_Indexes p ++ Possible_Indexes p);
  costs_r ← costs_R seq costs;
  OK (tr, {| Number_of_Existing_Indexes := num_eind;
             Number_of_Possible_Indexes := num_pind;
             Sequential_Scan_Costs := seq;
             Index_Costs := costs;
             Index_IWOs := iwos;
             Index_Costs_B := costs_B costs;
             Index_Costs_R := costs_r |}).

End Reader.

(** ** The settings input (the parsed JSON of the optimizer settings) *)

(** The JSON values a rule or the time limit may carry.  [JOther] stands for
    arrays and objects. *)
Inductive json : Type :=
| JNull
| JBool (b : bool)
| JInt (z : Z)
| JFloat (q : Q)
| JString (s : string)
| JOther.

(** [{"Name": ..., "Value": ...}] *)
Record rule := {
  rule_Name : string;
  rule_Value : json
}.

(** [{"Name": ..., "Tolerance": ...}] *)
Record goal_setting := {
  goal_Name : string;
  goal_Tolerance : Q
}.

(** [settings["Options"]]; an absent key is [None]. *)
Record options := {
  Goals : option (list goal_setting);
  Rules : option (list rule)
}.

Record settings := {
  Options : option options;
  Time_Limit : option json
}.

(** [Reader._settings] together with [Reader._time_limit]. *)
Record settings_data := {
  settings_Goals : list goal_setting;
  settings_Rules : list rule;
  _time_limit : json
}.

(** [isinstance(v, int)]: [bool] is a subclass of [int]. *)
Definition isinstance_int (v : json) : bool :=
  match v with JInt _ | JBool _ => true | _ => false end.

(** [isinstance(v, (int, float))] *)
Definition isinstance_int_float (v : json) : bool :=
  match v with JInt _ | JBool _ | JFloat _ => true | _ => false end.

(** The number a numeric JSON value stands for ([True] is 1). *)
Definition json_number (v : json) : option Q :=
  match v with
  | JInt z => Some (inject_Z z)
  | JBool b => Some (if b then 1%Q else 0%Q)
  | JFloat q => Some q
  | _ => None
  end.

(** [v >= bound] on a value that passed [isinstance]; comparing anything else
    with a number raises [TypeError]. *)
Definition json_ge (v : json) (bound : Q) : result bool :=
  match json_number v with
  | Some q => OK (Qle_bool bound q)
  | None => Raise TypeError
  end.

(** [sum(l)] over a list that may hold [None]. *)
Fixpoint py_sum (l : list (option Z)) : result Z :=
  match l with
  | [] => OK 0
  | Some z :: l' => s ← py_sum l'; OK (z + s)
  | None :: _ => Raise TypeError
  end.

Module ReaderSettings.

Definition Maximum_Number_of_Possible_Indexes : string :=
  "Maximum Number of Possible Indexes".
Definition Maximum_Index_Write_Overhead : string :=
  "Maximum Index Write Overhead".

(** [Reader._rule_defaults] *)
Definition _rule_defaults : list rule :=
  [ {| rule_Name := Maximum_Number_of_Possible_Indexes; rule_Value := JNull |};
    {| rule_Name := Maximum_Index_Write_Overhead; rule_Value := JNull |} ].

(** The goals installed when the settings name none (lines 313-316). *)
Definition default_goals : list goal_setting :=
  [ {| goal_Name := "Minimize Total Cost"; goal_Tolerance := 0 |};
    {| goal_Name := "Minimize Number of Indexes"; goal_Tolerance := 0 |} ].

(** First [if] of the loop body at lines 335-340. *)
Definition set_maximum_num_indexes (pd : problem_data) (r : rule) : result rule :=
  if decide (rule_Name r = Maximum_Number_of_Possible_Indexes) then
    let r1 :=
      match rule_Value r with
      | JNull => {| rule_Name := rule_Name r;
                    rule_Value := JInt (Z.of_nat (Number_of_Possible_Indexes pd)) |}
      | _ => r
      end in
    _ ← assert (isinstance_int (rule_Value r1));
    ge ← json_ge (rule_Value r1) 1;
    _ ← assert ge;
    OK r1
  else OK r.

(** Second [if] of the loop body (lines 342-347). *)
Definition set_maximum_iwo (pd : problem_data) (r : rule) : result rule :=
  if decide (rule_Name r = Maximum_Index_Write_Overhead) then
    match rule_Value r with
    | JNull =>
        total ← py_sum (Index_IWOs pd);
        OK {| rule_Name := rule_Name r; rule_Value := JInt total |}
    | _ =>
        _ ← assert (isinstance_int_float (rule_Value r));
        ge ← json_ge (rule_Value r) 0;
        _ ← assert ge;
        OK r
    end
  else OK r.

Definition set_default_value (pd : problem_data) (r : rule) : result rule :=
  r1 ← set_maximum_num_indexes pd r;
  set_maximum_iwo pd r1.

Definition _read_settings (pd : problem_data) (s : settings) : result settings_data :=
  opts ← match Options s with Some o => OK o | None => Raise KeyError end;
  let goals := match Goals opts with Some g => g | None => default_goals end in
  let rules := match Rules opts with Some r => r | None => [] end in
  let rule_names := rule_Name <$> rules in
  _ ← assert (bool_decide (NoDup rule_names));
  let rules1 :=
    rules ++ filter (fun d => rule_Name d ∉ rule_names) _rule_defaults in
  rules2 ← map_each (set_default_value pd) rules1;
  time_limit ←
    match Time_Limit s with
    | Some v =>
        _ ← assert (isinstance_int_float v);
        ge ← json_ge v 0;
        _ ← assert ge;
        OK v
    | None => OK (JInt 999999)
    end;
  OK {| settings_Goals := goals; settings_Rules := rules2; _time_limit := time_limit |}.

End ReaderSettings.

(** [Reader.__init__] on the parsed inputs; [settings=None] is the empty
    object, which has no ["Options"]. *)
Definition empty_settings : settings := {| Options := None; Time_Limit := None |}.

Definition Reader_init (p : problem) (s : option settings)
  : result (translation * problem_data * settings_data) :=
  '(tr, pd) ← Reader._read_problem p;
  sd ← ReaderSettings._read_settings pd (default empty_settings s);
  OK (tr, pd, sd).

(** [utils.run]: the Reader is built first, the optimizer (not part of this
    development, hence a section variable) only runs on a Reader. *)
Section Run.
Context {Results : Type}.
Variable Optimizer_get_results :
  translation * problem_data * settings_data -> result Results.

Definition run (data : problem) (settings_json : option settings) : result Results :=
  rdr ← Reader_init data settings_json;
  Optimizer_get_results rdr.
End Run.

(** ** The results extractor: the ["Indexes"] part of [Reader.get_results] *)

(** [{"Index OID": ..., "Selected": ...}] *)
Record index_result := {
  Index_OID : Z;
  Selected : bool
}.

Module Results.

Definition get_num_scans (tr : translation) : nat := length (Scan_IDs tr).
Definition get_num_indexes (tr : translation) : nat := length (Index_OIDs tr).
Definition get_num_pind (pd : problem_data) : nat := Number_of_Possible_Indexes pd.
Definition get_num_eind (pd : problem_data) : nat := Number_of_Existing_Indexes pd.

(** [get_index_oid] on an index that is not [None]. *)
Definition get_index_oid (tr : translation) (index : nat) : result Z :=
  getitem (Index_OIDs tr) index.

(** [enumerate(l)] *)
Definition enumerate {A : Type} (l : list A) : list (nat * A) :=
  zip (seq 0 (length l)) l.

(** Body of the loop at lines 165-172; the state is the pair of
    ["Existing Indexes"] and ["Possible Indexes"]. *)
Definition classify_index (tr : translation) (pd : problem_data)
    (acc : list index_result * list index_result) (entry : nat * Z)
  : result (list index_result * list index_result) :=
  oid ← get_index_oid tr entry.1;
  let new_index := {| Index_OID := oid; Selected := (entry.2 =? 1)%Z |} in
  if decide (entry.1 < get_num_eind pd)%nat
  then OK (acc.1 ++ [new_index], acc.2)
  else OK (acc.1, acc.2 ++ [new_index]).

Definition results_indexes (tr : translation) (pd : problem_data)
    (last_solution : list Z) : result (list index_result * list index_result) :=
  for_each (classify_index tr pd) ([], []) (enumerate last_solution).

End Results.

(** ** The constraint model handed to the solver

    [modelize.Model] wraps an OR-tools [CpModel]; the Goal class uses its
    attributes [x], [index_iwo], [scan_cost] and [objective], and its methods
    [Add] and [Minimize].  Constraints are kept in the order they were added
    and are never removed. *)
Module modelize.

Inductive var : Type :=
| X (i : nat)
| Scan_cost (j : nat)
| Objective_var.

(** [cp_model.LinearExpr] *)
Inductive LinearExpr : Type :=
| Sum (vars : list var)
| WeightedSum (vars : list var) (coefficients : list Z).

(** What [Add] receives: [v == e] or [e <= bound]. *)
Inductive BoundedLinearExpression : Type :=
| EqExpr (v : var) (e : LinearExpr)
| LeBound (e : LinearExpr) (bound : Z).

Record Model := {
  x : list var;
  index_iwo : list Z;
  scan_cost : list var;
  objective : var;
  constraints : list BoundedLinearExpression;
  minimized : option var
}.

Definition Add (m : Model) (c : BoundedLinearExpression) : Model :=
  {| x := x m; index_iwo := index_iwo m; scan_cost := scan_cost m;
     objective := objective m;
     constraints := constraints m ++ [c];
     minimized := minimized m |}.

Definition Minimize (m : Model) (v : var) : Model :=
  {| x := x m; index_iwo := index_iwo m; scan_cost := scan_cost m;
     objective := objective m;
     constraints := constraints m;
     minimized := Some v |}.

(** A solution gives every variable an integer. *)
Definition assignment : Type := var -> Z.

Fixpoint sum_of (a : assignment) (vars : list var) : Z :=
  match vars with
  | [] => 0
  | v :: vars' => a v + sum_of a vars'
  end.

Fixpoint weighted_sum_of (a : assignment) (vars : list var) (cs : list Z) : Z :=
  match vars, cs with
  | v :: vars', c :: cs' => a v * c + weighted_sum_of a vars' cs'
  | _, _ => 0
  end.

Definition eval (a : assignment) (e : LinearExpr) : Z :=
  match e with
  | Sum vars => sum_of a vars
  | WeightedSum vars cs => weighted_sum_of a vars cs
  end.

Definition holds (a : assignment) (c : BoundedLinearExpression) : Prop :=
  match c with
  | EqExpr v e => a v = eval a e
  | LeBound e bound => eval a e <= bound
  end.

(** What the backend returns for a model is feasible for it. *)
Definition feasible (a : assignment) (m : Model) : Prop :=
  Forall (holds a) (constraints m).

(** [m'] still carries every constraint of [m]. *)
Definition keeps (m m' : Model) : Prop :=
  forall c, c ∈ constraints m -> c ∈ constraints m'.

End modelize.

(** ** The Goal class *)

Record goal := {
  _name : string;
  _tolerance : Q;
  _value : option Q
}.

Module Goal.
Import modelize.

Definition Minimize_Index_Write_Overhead : string := "Minimize Index Write Overhead".
Definition Minimal_Indexes : string := "Minimal Indexes".
Definition Minimal_Cost : string := "Minimal Cost".

Definition _names : list string :=
  [Minimize_Index_Write_Overhead; Minimal_Indexes; Minimal_Cost].

Definition __init__ (name : string) (tolerance : Q) : result goal :=
  _ ← assert (bool_decide (name ∈ _names));
  _ ← assert (Qle_bool 0 tolerance);
  OK {| _name := name; _tolerance := tolerance; _value := None |}.

Definition get_name (g : goal) : string := _name g.

Definition is_optimized (g : goal) : bool :=
  match _value g with Some _ => true | None => false end.

Definition get_value (g : goal) : result Q :=
  _ ← assert (is_optimized g);
  match _value g with
  | Some v => OK v
  | None => Raise AssertionError
  end.


Definition add_as_objective (g : goal) (m : Model) : Model :=
  if decide (_name g = Minimize_Index_Write_Overhead) then
    Minimize
      (Add m (EqExpr (objective m) (WeightedSum (x m) (index_iwo m))))
      (objective m)
  else if decide (_name g = Minimal_Indexes) then
    Minimize (Add m (EqExpr (objective m) (Sum (x m)))) (objective m)
  else if decide (_name g = Minimal_Cost) then
    Minimize (Add m (EqExpr (objective m) (Sum (scan_cost m)))) (objective m)
  else m.

(** [floor(self.get_value() * (1 + self._tolerance))] *)
Definition constraint_bound (g : goal) : result Z :=
  v ← get_value g;
  OK (Qfloor (v * (1 + _tolerance g))).

Definition add_as_constraint (g : goal) (m : Model) : result Model :=
  _ ← assert (is_optimized g);
  if decide (_name g = Minimize_Index_Write_Overhead) then
    bound ← constraint_bound g;
    OK (Add m (LeBound (WeightedSum (x m) (index_iwo m)) bound))
  else if decide (_name g = Minimal_Indexes) then
    bound ← constraint_bound g;
    OK (Add m (LeBound (Sum (x m)) bound))
  else if decide (_name g = Minimal_Cost) then
    bound ← constraint_bound g;
    OK (Add m (LeBound (Sum (scan_cost m)) bound))
  else OK m.

End Goal.

(** ** The object store behind the accessors

    [get_problem], [get_settings], [get_solutions] and [get_translation]
    return [copy.deepcopy] of a dictionary held by the class.  Dictionaries
    and lists are mutable objects with an identity; they live in a store and
    are referred to by location.  Numbers, strings, [None] and tuples of
    those are immutable and are values. *)
Module Store.

Abbreviation loc := nat (only parsing).

Inductive atom : Type :=
| ANone
| ABool (b : bool)
| AInt (z : Z)
| ANum (q : Q)
| AStr (s : string).

Inductive value : Type :=
| VAtom (a : atom)
| VTuple (items : list atom)
| VRef (l : loc).

(** A list, or a dictionary with its keys in insertion order. *)
Inductive kind : Type :=
| KList
| KDict (keys : list string).

(** A mutable object: its kind and its items (for a dictionary, the values
    bound to the keys, in the same order). *)
Record object := {
  shape : kind;
  fields : list value
}.

Abbreviation store := (list object) (only parsing).

(** Structural content of a value, as compared by [==]. *)
Inductive content : Type :=
| CAtom (a : atom)
| CTuple (items : list atom)
| CObject (k : kind) (items : list content).

(** Copy the items left to right, threading the store. *)
Fixpoint copy_items (copy : store -> value -> option (store * value))
    (h : store) (items : list value) : option (store * list value) :=
  match items with
  | [] => Some (h, [])
  | v :: items' =>
      match copy h v with
      | Some (h1, v') =>
          match copy_items copy h1 items' with
          | Some (h2, vs') => Some (h2, v' :: vs')
          | None => None
          end
      | None => None
      end
  end.

(** [copy.deepcopy]: immutable values are returned as they are; a list or
    dictionary is rebuilt from copies of its items as a new object.  [fuel]
    bounds the nesting depth; [None] is a dangling reference or a structure
    deeper than [fuel].  The stores of the Reader are trees, so the memo
    table of [deepcopy], which only serves shared and cyclic structures,
    is left out. *)
Fixpoint deepcopy (fuel : nat) (h : store) (v : value) : option (store * value) :=
  match v with
  | VAtom _ | VTuple _ => Some (h, v)
  | VRef l =>
      match fuel with
      | O => None
      | S n =>
          match h !! l with
          | Some o =>
              match copy_items (deepcopy n) h (fields o) with
              | Some (h1, vs') =>
                  Some (h1 ++ [{| shape := shape o; fields := vs' |}],
                        VRef (length h1))
              | None => None
              end
          | None => None
          end
      end
  end.

(** The content of a value in a store. *)
Fixpoint snapshot (fuel : nat) (h : store) (v : value) : option content :=
  match v with
  | VAtom a => Some (CAtom a)
  | VTuple t => Some (CTuple t)
  | VRef l =>
      match fuel with
      | O => None
      | S n =>
          match h !! l with
          | Some o => CObject (shape o) <$> mapM (snapshot n h) (fields o)
          | None => None
          end
      end
  end.

(** The objects a value leads to. *)
Inductive reach (h : store) : value -> loc -> Prop :=
| reach_here l o : h !! l = Some o -> reach h (VRef l) l
| reach_field l o v l' :
    h !! l = Some o -> v ∈ fields o -> reach h v l' -> reach h (VRef l) l'.

(** Any in-place change of an object (item assignment, [append], [del],
    [clear], [update], ...) replaces the items of the object at its
    location. *)
Definition mutate (h : store) (w : loc * object) : store := <[w.1 := w.2]> h.

Definition mutate_all (h : store) (ws : list (loc * object)) : store :=
  foldl mutate h ws.

(** Store a content as new objects (what building a structure does). *)
Fixpoint alloc (h : store) (c : content) : store * value :=
  match c with
  | CAtom a => (h, VAtom a)
  | CTuple t => (h, VTuple t)
  | CObject k cs =>
      let '(h1, vs) :=
        (fix go (h : store) (cs : list content) : store * list value :=
           match cs with
           | [] => (h, [])
           | c :: cs' =>
               let '(h1, v) := alloc h c in
               let '(h2, vs) := go h1 cs' in
               (h2, v :: vs)
           end) h cs in
      (h1 ++ [{| shape := k; fields := vs |}], VRef (length h1))
  end.

(** The four class-level dictionaries of [Reader]. *)
Record reader := {
  _problem : loc;
  _settings : loc;
  _solutions : loc;
  _translation : loc
}.

Definition get_problem (fuel : nat) (rd : reader) (h : store) :=
  deepcopy fuel h (VRef (_problem rd)).
Definition get_settings (fuel : nat) (rd : reader) (h : store) :=
  deepcopy fuel h (VRef (_settings rd)).
Definition get_solutions (fuel : nat) (rd : reader) (h : store) :=
  deepcopy fuel h (VRef (_solutions rd)).
Definition get_translation (fuel : nat) (rd : reader) (h : store) :=
  deepcopy fuel h (VRef (_translation rd)).

Inductive accessor : Type :=
| Get_problem
| Get_settings
| Get_solutions
| Get_translation.

Definition stored (rd : reader) (a : accessor) : loc :=
  match a with
  | Get_problem => _problem rd
  | Get_settings => _settings rd
  | Get_solutions => _solutions rd
  | Get_translation => _translation rd
  end.

Definition call (a : accessor) (fuel : nat) (rd : reader) (h : store)
  : option (store * value) :=
  match a with
  | Get_problem => get_problem fuel rd h
  | Get_settings => get_settings fuel rd h
  | Get_solutions => get_solutions fuel rd h
  | Get_translation => get_translation fuel rd h
  end.

End Store.

(** ** The binary64 reading of the scaling functions

    A Python [float] is an IEEE-754 binary64 number: [spec_float] with a
    53-bit mantissa and exponents up to 1024.  An [int] that meets a [float]
    operand is converted first; [int / int] is the correctly rounded
    quotient. *)
Module Binary64.

Definition prec : Z := 53.
Definition emax : Z := 1024.

(** [float(z)] *)
Definition of_int (z : Z) : spec_float := binary_normalize prec emax z 0 false.

(** The rational a finite float stands for. *)
Definition to_Q (x : spec_float) : option Q :=
  match x with
  | S754_zero _ => Some 0%Q
  | S754_finite s m e =>
      let q := if (0 <=? e)%Z then inject_Z (Zpos m * 2 ^ e)
               else Qmake (Zpos m) (Z.to_pos (2 ^ (- e))) in
      Some (if s then (- q)%Q else q)
  | _ => None
  end.

(** [round(x)] on a float: [OverflowError] on an infinity, [ValueError] on a
    NaN. *)
Definition round (x : spec_float) : result Z :=
  match x with
  | S754_infinity _ => Raise OverflowError
  | S754_nan => Raise ValueError
  | _ => match to_Q x with
         | Some q => OK (py_round q)
         | None => Raise ValueError
         end
  end.

(** [a / b] on two [int]s. *)
Definition int_true_divide (a b : Z) : result spec_float :=
  match a, b with
  | _, Z0 => Raise ZeroDivisionError
  | Z0, _ => OK (S754_zero false)
  | Zpos pa, Zpos pb | Zneg pa, Zneg pb =>
      OK (SFdiv prec emax (S754_finite false pa 0) (S754_finite false pb 0))
  | Zpos pa, Zneg pb | Zneg pa, Zpos pb =>
      OK (SFdiv prec emax (S754_finite true pa 0) (S754_finite false pb 0))
  end.

(** [Reader._upscale] on a float: [round(value * 100)]. *)
Definition _upscale (value : spec_float) : result Z :=
  round (SFmul prec emax value (of_int Reader._multiplier)).

(** [Reader._downscale] on an upscaled integer: [value / 100]. *)
Definition _downscale (value : Z) : result spec_float :=
  int_true_divide value Reader._multiplier.


End Binary64.

(** ** Sample inputs *)
Module Samples.

(** Two scans of sequential cost 100 and 200; the existing index 1 serves
    the first at cost 50, the possible index 2 the second at cost 80. *)
Definition scan_a : scan :=
  {| scan_id := "a"; sequential_scan_cost := Some 100%Q;
     existing_index_costs := [ {| ic_oid := 1; ic_cost := 50 |} ];
     possible_index_costs := [] |}.

Definition scan_b : scan :=
  {| scan_id := "b"; sequential_scan_cost := Some 200%Q;
     existing_index_costs := [];
     possible_index_costs := [ {| ic_oid := 2; ic_cost := 80 |} ] |}.

Definition index_1 : index := {| index_oid := 1; index_write_overhead := 10 |}.
Definition index_2 : index := {| index_oid := 2; index_write_overhead := 20 |}.

Definition workload : problem :=
  {| Scans := [scan_a; scan_b];
     Existing_Indexes := [index_1];
     Possible_Indexes := [index_2] |}.

(** The same workload with nothing left to decide. *)
Definition workload_without_possible : problem :=
  {| Scans := [scan_a];
     Existing_Indexes := [index_1];
     Possible_Indexes := [] |}.

(** A third scan whose sequential cost is [null]. *)
Definition scan_c : scan :=
  {| scan_id := "c"; sequential_scan_cost := None;
     existing_index_costs := []; possible_index_costs := [] |}.

Definition workload_with_null_cost : problem :=
  {| Scans := [scan_a; scan_b; scan_c];
     Existing_Indexes := [index_1];
     Possible_Indexes := [index_2] |}.





(** [{"Options": {}}] *)
Definition settings_no_goals : settings :=
  {| Options := Some {| Goals := None; Rules := None |}; Time_Limit := None |}.

(** [{"Options": {"Rules": [{"Name": "Maximum Number of Possible Indexes",
    "Value": v}]}}] *)
Definition settings_max_indexes (v : json) : settings :=
  {| Options :=
       Some {| Goals := None;
               Rules := Some [ {| rule_Name :=
                                    ReaderSettings.Maximum_Number_of_Possible_Indexes;
                                  rule_Value := v |} ] |};
     Time_Limit := None |}.

(** The stored problem of [workload]. *)
Definition workload_data : problem_data :=
  {| Number_of_Existing_Indexes := 1;
     Number_of_Possible_Indexes := 1;
     Sequential_Scan_Costs := [Some 10000; Some 20000];
     Index_Costs := [[Some 5000; None]; [None; Some 8000]];
     Index_IWOs := [Some 1000; Some 2000];
     Index_Costs_B := [[1; 0]; [0; 1]];
     Index_Costs_R := [[Some 5000; Some 20000]; [Some 10000; Some 8000]] |}.

Definition workload_translation : translation :=
  {| Scan_IDs := ["a"; "b"]; Index_OIDs := [1; 2] |}.

End Samples.

(** A model and goals to try the Goal class on. *)
Module GoalSamples.
Import modelize.

Definition model_0 : Model :=
  {| x := [X 0; X 1]; index_iwo := [1000; 2000];
     scan_cost := [Scan_cost 0; Scan_cost 1];
     objective := Objective_var; constraints := []; minimized := None |}.


(** Both indexes selected, the scans at their indexed costs. *)
Definition both_selected : assignment :=
  fun v => match v with
           | X _ => 1
           | Scan_cost 0 => 5000
           | Scan_cost _ => 8000
           | Objective_var => 13000
           end.

End GoalSamples.

(** The entry the results extractor writes for an index and its value in the
    solution. *)
Definition index_entry (oid : Z) (used : Z) : index_result :=
  {| Index_OID := oid; Selected := (used =? 1)%Z |}.

(** ** Vocabulary for the cost matrices *)

(** Entry [i][j] of a matrix; [None] when out of range. *)
Definition cell {A : Type} (m : list (list A)) (i j : nat) : option A :=
  m !! i ≫= (fun row => row !! j).

(** The cost lists of a scan, in the order the Reader visits them. *)
Definition index_costs_of (sc : scan) : list index_cost :=
  existing_index_costs sc ++ possible_index_costs sc.

(** What one entry of a scan's cost list does to the cell of index [i]: an
    entry of that index whose upscaled cost is below the sequential cost [s]
    overwrites the cell. *)
Definition cell_step (oids : list Z) (s : Z) (i : nat) (acc : option Z)
    (ic : index_cost) : option Z :=
  if decide (index_of (ic_oid ic) oids = Some i) then
    if (Reader._upscale (ic_cost ic) >=? s)%Z then acc
    else Some (Reader._upscale (ic_cost ic))
  else acc.

Definition cell_after (oids : list Z) (s : Z) (i : nat) (cl : list index_cost)
    (old : option Z) : option Z :=
  foldl (cell_step oids s i) old cl.


(** ** The Reader's dictionaries as objects of the store *)
Module Layout.
Import Store.

Definition content_of_cost (v : option Z) : content :=
  CAtom (match v with Some z => AInt z | None => ANone end).

Definition content_of_json (v : json) : content :=
  match v with
  | JNull => CAtom ANone
  | JBool b => CAtom (ABool b)
  | JInt z => CAtom (AInt z)
  | JFloat q => CAtom (ANum q)
  | JString s => CAtom (AStr s)
  | JOther => CObject KList []
  end.

(** [Reader._problem], with its keys in the order [_read_problem] sets
    them. *)
Definition content_of_problem_data (pd : problem_data) : content :=
  CObject
    (KDict [ "Number of Existing Indexes"; "Number of Possible Indexes";
             "Sequential Scan Costs"; "Index Costs"; "Index IWOs";
             "Index Costs (B)"; "Index Costs (R)" ])
    [ CAtom (AInt (Z.of_nat (Number_of_Existing_Indexes pd)));
      CAtom (AInt (Z.of_nat (Number_of_Possible_Indexes pd)));
      CObject KList (content_of_cost <$> Sequential_Scan_Costs pd);
      CObject KList
        ((fun row => CObject KList (content_of_cost <$> row)) <$> Index_Costs pd);
      CObject KList (content_of_cost <$> Index_IWOs pd);
      CObject KList
        ((fun row : list Z => CObject KList ((fun z => CAtom (AInt z)) <$> row))
           <$> Index_Costs_B pd);
      CObject KList
        ((fun row => CObject KList (content_of_cost <$> row)) <$> Index_Costs_R pd) ].

(** [Reader._translation]: two tuples. *)
Definition content_of_translation (tr : translation) : content :=
  CObject (KDict ["Scan IDs"; "Index OIDs"])
    [ CTuple (AStr <$> Scan_IDs tr); CTuple (AInt <$> Index_OIDs tr) ].

(** [Reader._settings] *)
Definition content_of_settings (sd : settings_data) : content :=
  CObject (KDict ["Goals"; "Rules"])
    [ CObject KList
        ((fun g => CObject (KDict ["Name"; "Tolerance"])
                     [CAtom (AStr (goal_Name g)); CAtom (ANum (goal_Tolerance g))])
           <$> settings_Goals sd);
      CObject KList
        ((fun r => CObject (KDict ["Name"; "Value"])
                     [CAtom (AStr (rule_Name r)); content_of_json (rule_Value r)])
           <$> settings_Rules sd) ].

(** Store a dictionary and return where it is. *)
Definition alloc_dict (h : store) (c : content) : store * loc :=
  let '(h1, v) := alloc h c in
  (h1, match v with VRef l => l | _ => O end).

(** The store of a Reader that has read its inputs and holds no solution
    yet. *)
Definition load (tr : translation) (pd : problem_data) (sd : settings_data)
  : store * reader :=
  let '(h1, l_problem) := alloc_dict [] (content_of_problem_data pd) in
  let '(h2, l_settings) := alloc_dict h1 (content_of_settings sd) in
  let '(h3, l_solutions) := alloc_dict h2 (CObject (KDict []) []) in
  let '(h4, l_translation) := alloc_dict h3 (content_of_translation tr) in
  (h4, {| _problem := l_problem; _settings := l_settings;
          _solutions := l_solutions; _translation := l_translation |}).

(** The settings stored for the sample workload under [{"Options": {}}]. *)
Definition workload_settings : settings_data :=
  {| settings_Goals := ReaderSettings.default_goals;
     settings_Rules :=
       [ {| rule_Name := ReaderSettings.Maximum_Number_of_Possible_Indexes;
            rule_Value := JInt 1 |};
         {| rule_Name := ReaderSettings.Maximum_Index_Write_Overhead;
            rule_Value := JInt 3000 |} ];
     _time_limit := JInt 999999 |}.

Definition workload_store : store * reader :=
  load Samples.workload_translation Samples.workload_data workload_settings.

(** What a caller may do with the dictionary it got from [get_problem]:
    empty it. *)
Definition emptied : object := {| shape := KDict []; fields := [] |}.

End Layout.

(** ** Further methods of the Reader *)
Module Accessors.

(** [get_scan_id]; the argument is a position counted from the front. *)
Definition get_scan_id (tr : translation) (scan : nat) : result string :=
  getitem (Scan_IDs tr) scan.

(** [get_index_oid], whose argument may be [None]. *)
Definition get_index_oid (tr : translation) (index : option nat) : result (option Z) :=
  match index with
  | Some i => oid ← getitem (Index_OIDs tr) i; OK (Some oid)
  | None => OK None
  end.

(** The loop shared by [get_maximum_num_indexes] and [get_maximum_iwo]: the
    value of the first rule of that name; falling off the end of the loop
    returns [None]. *)
Fixpoint rule_value (name : string) (rules : list rule) : json :=
  match rules with
  | [] => JNull
  | r :: rules' =>
      if decide (rule_Name r = name) then rule_Value r else rule_value name rules'
  end.

Definition get_maximum_num_indexes (sd : settings_data) : json :=
  rule_value ReaderSettings.Maximum_Number_of_Possible_Indexes (settings_Rules sd).

Definition get_maximum_iwo (sd : settings_data) : json :=
  rule_value ReaderSettings.Maximum_Index_Write_Overhead (settings_Rules sd).

Definition get_time_limit (sd : settings_data) : json := _time_limit sd.

End Accessors.

(** ** The solutions and what [get_results] reads from them *)

(** The entries of a solution that [get_results] reads: ["x"] and
    ["Objective Value (Real)"]. *)
Record solution := {
  solution_x : list Z;
  Objective_Value_Real : Q
}.

Module Solutions.

(** [d[k] = v] on a dictionary kept in insertion order: a key already there
    keeps its place. *)
Fixpoint dict_set {V : Type} (d : list (string * V)) (k : string) (v : V)
  : list (string * V) :=
  match d with
  | [] => [(k, v)]
  | (k', v') :: d' =>
      if decide (k' = k) then (k, v) :: d' else (k', v') :: dict_set d' k v
  end.

(** [d[k]] read as an option. *)
Fixpoint dict_get {V : Type} (d : list (string * V)) (k : string) : option V :=
  match d with
  | [] => None
  | (k', v') :: d' => if decide (k' = k) then Some v' else dict_get d' k
  end.

(** [Reader.add_solution] *)
Definition add_solution (solutions : list (string * solution)) (goal : string)
    (s : solution) : list (string * solution) :=
  dict_set solutions goal s.

(** [solutions[list(solutions.keys())[-1]]["x"]] (line 134) *)
Definition last_solution (solutions : list (string * solution)) : result (list Z) :=
  match last solutions with
  | Some (_, s) => OK (solution_x s)
  | None => Raise IndexError
  end.

(** [results["Goals"]] (lines 137-140): one [{goal: value}] per solution. *)
Definition results_goals (solutions : list (string * solution)) : list (string * Q) :=
  (fun gs : string * solution => (gs.1, Objective_Value_Real gs.2)) <$> solutions.

(** [sum] over a list of integers. *)
Fixpoint sum_ints (l : list Z) : Z :=
  match l with
  | [] => 0
  | z :: l' => z + sum_ints l'
  end.

(** ["Indexes Used"]["Existing"] and ["Possible"] (lines 205-206). *)
Definition indexes_used_existing (pd : problem_data) (last_solution : list Z) : Z :=
  sum_ints (take (Results.get_num_eind pd) last_solution).

Definition indexes_used_possible (pd : problem_data) (last_solution : list Z) : Z :=
  sum_ints (drop (Results.get_num_eind pd) last_solution).

End Solutions.

(** A matrix of [rows] rows of [cols] entries each. *)
Definition matrix_dimensions {A : Type} (m : list (list A)) (rows cols : nat) : Prop :=
  length m = rows /\ Forall (fun row => length row = cols) m.

(** * Properties *)

(** ** The result monad and the loops *)

Lemma bind_OK {A B : Type} (m : result A) (f : A -> result B) (b : B) :
  (m ≫= f) = OK b -> exists a, m = OK a /\ f a = OK b.
Proof. destruct m as [a|e]; simpl; [eauto | discriminate]. Qed.

Lemma assert_OK (c : bool) (u : unit) : assert c = OK u -> c = true.
Proof. destruct c; [reflexivity | discriminate]. Qed.

Lemma for_each_app {S A : Type} (body : S -> A -> result S) (s : S) (l1 l2 : list A) :
  for_each body s (l1 ++ l2) = (for_each body s l1 ≫= fun s' => for_each body s' l2).
Proof.
  revert s. induction l1 as [|x l1 IH]; intros s; simpl; [reflexivity|].
  destruct (body s x) as [s'|e]; simpl; [apply IH | reflexivity].
Qed.

(** A loop keeps whatever its body keeps. *)
Lemma for_each_invariant {S A : Type} (P : S -> Prop) (body : S -> A -> result S)
    (l : list A) :
  (forall s x s', x ∈ l -> P s -> body s x = OK s' -> P s') ->
  forall s s', P s -> for_each body s l = OK s' -> P s'.
Proof.
  induction l as [|x l IH]; intros Hbody s s' Hs Hrun; simpl in Hrun.
  - by inversion Hrun; subst.
  - apply bind_OK in Hrun as (s1 & H1 & H2).
    eapply IH; [| |exact H2].
    + intros; eapply Hbody; eauto. by right.
    + eapply Hbody; eauto. by left.
Qed.

(** A loop whose body raises at some element raises. *)
Lemma for_each_raises {S A : Type} (body : S -> A -> result S) (l : list A) (x : A) :
  x ∈ l -> (forall s, exists e, body s x = Raise e) ->
  forall s, exists e, for_each body s l = Raise e.
Proof.
  intros Hin Hx. induction l as [|y l IH]; intros s; [by inversion Hin|].
  simpl. apply elem_of_cons in Hin as [->|Hin].
  - destruct (Hx s) as [e ->]. eauto.
  - destruct (body s y) as [s'|e]; simpl; [by apply IH | eauto].
Qed.

(** ** Reading the sample workload *)

Example read_workload :
  Reader._read_problem Samples.workload
  = OK (Samples.workload_translation, Samples.workload_data).
Proof. vm_compute. reflexivity. Qed.

(** ** No possible index: nothing to decide *)

Lemma read_problem_no_possible (p : problem) :
  Possible_Indexes p = [] -> Reader._read_problem p = Raise AssertionError.
Proof.
  intros Hp. unfold Reader._read_problem.
  replace (bool_decide _) with false; [reflexivity|].
  symmetry. apply bool_decide_eq_false.
  rewrite length_replicate. simpl. rewrite Hp, app_nil_r, length_fmap. lia.
Qed.

(** C7: when the list of possible indexes is empty, [_read_problem] fails its
    assertion, so constructing the Reader fails and [run] raises before the
    optimizer is ever called, whatever the settings and whatever the
    optimizer. *)
Theorem no_possible_indexes_rejected
    (p : problem) (s : option settings) (Results : Type)
    (Optimizer_get_results : translation * problem_data * settings_data -> result Results) :
  Possible_Indexes p = [] ->
  Reader._read_problem p = Raise AssertionError
  /\ Reader_init p s = Raise AssertionError
  /\ run Optimizer_get_results p s = Raise AssertionError.
Proof.
  intros Hp. pose proof (read_problem_no_possible p Hp) as H.
  unfold run, Reader_init. rewrite H. repeat split; reflexivity.
Qed.

Lemma no_possible_indexes_rejected_witness :
  Possible_Indexes Samples.workload_without_possible = []
  /\ Reader_init Samples.workload_without_possible None = Raise AssertionError.
Proof.
  split; [reflexivity|].
  apply (no_possible_indexes_rejected Samples.workload_without_possible None unit
           (fun _ => OK tt)).
  reflexivity.
Defined.

(** ** Default goals *)

Lemma map_each_OK {A B : Type} (f : A -> result B) (l : list A) (l' : list B) :
  map_each f l = OK l' -> Forall2 (fun x y => f x = OK y) l l'.
Proof.
  revert l'. induction l as [|x l IH]; intros l' H; simpl in H.
  - inversion H. constructor.
  - apply bind_OK in H as (y & Hy & H).
    apply bind_OK in H as (ys & Hys & H). inversion H; subst.
    constructor; [exact Hy | by apply IH].
Qed.

Lemma map_each_elem {A B : Type} (f : A -> result B) (l : list A) (l' : list B) (x : A) :
  map_each f l = OK l' -> x ∈ l -> exists y, f x = OK y.
Proof.
  intros H Hin. apply map_each_OK in H.
  induction H as [|a b l l' Hab _ IH]; [by inversion Hin|].
  apply elem_of_cons in Hin as [->|Hin]; eauto.
Qed.

(** With settings that have ["Options"] but no ["Goals"], the stored goals
    are the default ones. *)
Lemma read_settings_default_goals (pd : problem_data) (s : settings) (opts : options)
    (sd : settings_data) :
  Options s = Some opts -> Goals opts = None ->
  ReaderSettings._read_settings pd s = OK sd ->
  settings_Goals sd = ReaderSettings.default_goals.
Proof.
  intros Ho Hg H. unfold ReaderSettings._read_settings in H.
  rewrite Ho in H. simpl in H. rewrite Hg in H.
  apply bind_OK in H as (_ & _ & H).
  apply bind_OK in H as (rules2 & _ & H).
  apply bind_OK in H as (tl & _ & H).
  by inversion H.
Qed.

(** C1: on the settings [{"Options": {}}] the Reader stores the two default
    goals, "Minimize Total Cost" and "Minimize Number of Indexes", with
    tolerance 0; neither name is in [Goal._names], and [Goal.__init__] fails
    its assertion on each of them. *)
Theorem default_goal_names_fail_validation :
  (exists sd,
      ReaderSettings._read_settings Samples.workload_data Samples.settings_no_goals = OK sd
      /\ settings_Goals sd
         = [ {| goal_Name := "Minimize Total Cost"; goal_Tolerance := 0 |};
             {| goal_Name := "Minimize Number of Indexes"; goal_Tolerance := 0 |} ])
  /\ Forall (fun g => (goal_Name g ∉ Goal._names)
                      /\ Goal.__init__ (goal_Name g) (goal_Tolerance g)
                         = Raise AssertionError)
            ReaderSettings.default_goals.
Proof.
  split.
  - eexists. split; [vm_compute; reflexivity | reflexivity].
  - unfold ReaderSettings.default_goals.
    repeat constructor; simpl; try (vm_compute; reflexivity).
    + vm_compute. intros H. repeat (apply elem_of_cons in H as [H|H]; [discriminate|]).
      by apply elem_of_nil in H.
    + vm_compute. intros H. repeat (apply elem_of_cons in H as [H|H]; [discriminate|]).
      by apply elem_of_nil in H.
Qed.

(** Without a settings argument the Reader reads the empty object and fails
    on its missing ["Options"]. *)
Example Reader_init_without_settings :
  Reader_init Samples.workload None = Raise KeyError.
Proof. vm_compute. reflexivity. Qed.

(** ** The rule on the number of possible indexes *)

Example read_settings_max_indexes_zero :
  ReaderSettings._read_settings Samples.workload_data
    (Samples.settings_max_indexes (JInt 0)) = Raise AssertionError.
Proof. vm_compute. reflexivity. Qed.

(** C3, as stated, fails: the rule set to 0 is not accepted. *)
Lemma max_indexes_zero_not_accepted :
  ~ exists sd,
      ReaderSettings._read_settings Samples.workload_data
        (Samples.settings_max_indexes (JInt 0)) = OK sd.
Proof. intros [sd H]. rewrite read_settings_max_indexes_zero in H. discriminate. Qed.

(** C3, amended: whenever [_read_settings] accepts the settings, a value given
    to the rule "Maximum Number of Possible Indexes" is an integer of at
    least 1 ([true] counts as 1, [null] asks for the default); in particular
    the value 0 is rejected. *)
Theorem max_indexes_accepted_at_least_one
    (pd : problem_data) (s : settings) (opts : options) (rules : list rule)
    (sd : settings_data) (r : rule) :
  Options s = Some opts -> Rules opts = Some rules -> r ∈ rules ->
  rule_Name r = ReaderSettings.Maximum_Number_of_Possible_Indexes ->
  ReaderSettings._read_settings pd s = OK sd ->
  rule_Value r = JNull \/ rule_Value r = JBool true
  \/ exists n, rule_Value r = JInt n /\ 1 <= n.
Proof.
  intros Ho Hr Hin Hname H. unfold ReaderSettings._read_settings in H.
  rewrite Ho in H. simpl in H. rewrite Hr in H.
  apply bind_OK in H as (_ & _ & H).
  apply bind_OK in H as (rules2 & Hmap & _).
  destruct (map_each_elem _ _ _ r Hmap) as [y Hy]; [apply elem_of_app; by left|].
  unfold ReaderSettings.set_default_value in Hy.
  apply bind_OK in Hy as (r1 & H1 & _).
  unfold ReaderSettings.set_maximum_num_indexes in H1.
  rewrite decide_True in H1 by exact Hname.
  destruct (rule_Value r) as [|[|]|n|q|str|] eqn:Hv; simpl in H1;
    rewrite ?Hv in H1; try discriminate; auto.
  right; right. exists n. split; [reflexivity|].
  unfold json_ge in H1. simpl in H1.
  destruct (Qle_bool 1 (inject_Z n)) eqn:Hle; [|discriminate].
  apply Qle_bool_iff in Hle. unfold Qle in Hle. simpl in Hle. lia.
Qed.

Lemma max_indexes_accepted_at_least_one_witness :
  exists sd,
    ReaderSettings._read_settings Samples.workload_data
      (Samples.settings_max_indexes (JInt 1)) = OK sd
    /\ (JInt 1 = JNull \/ JInt 1 = JBool true \/ exists n, JInt 1 = JInt n /\ 1 <= n).
Proof.
  eexists. split; [vm_compute; reflexivity|].
  eapply (max_indexes_accepted_at_least_one Samples.workload_data
            (Samples.settings_max_indexes (JInt 1)) _ _ _
            {| rule_Name := ReaderSettings.Maximum_Number_of_Possible_Indexes;
               rule_Value := JInt 1 |});
    [reflexivity | reflexivity | apply list_elem_of_here | reflexivity
    | vm_compute; reflexivity].
Defined.

(** ** The Goal class *)

Section GoalProperties.
Import modelize.

Lemma init_OK (name : string) (tolerance : Q) (g : goal) :
  Goal.__init__ name tolerance = OK g ->
  name ∈ Goal._names /\ (0 <= tolerance)%Q
  /\ g = {| _name := name; _tolerance := tolerance; _value := None |}.
Proof.
  unfold Goal.__init__. intros H.
  apply bind_OK in H as (_ & H1%assert_OK & H).
  apply bind_OK in H as (_ & H2%assert_OK & H).
  apply bool_decide_eq_true in H1. apply Qle_bool_iff in H2.
  by inversion H.
Qed.

Lemma add_as_objective_keeps (g : goal) (m : Model) :
  keeps m (Goal.add_as_objective g m).
Proof.
  intros c Hc. unfold Goal.add_as_objective.
  repeat case_decide; simpl; try apply elem_of_app; auto.
Qed.

Lemma add_as_constraint_keeps (g : goal) (m m' : Model) :
  Goal.add_as_constraint g m = OK m' -> keeps m m'.
Proof.
  unfold Goal.add_as_constraint. intros H c Hc.
  apply bind_OK in H as (_ & _ & H).
  repeat case_decide;
    try (apply bind_OK in H as (b & _ & H));
    inversion H; subst; simpl; try apply elem_of_app; auto.
Qed.





End GoalProperties.


(** The bound at work: with both indexes selected the total cost is 13000,
    and a value of 13000 with a tolerance of 5% gives the bound 13650. *)
Example bound_on_sample :
  modelize.eval GoalSamples.both_selected
    (modelize.Sum (modelize.scan_cost GoalSamples.model_0)) = 13000
  /\ Qfloor (13000 * (1 + (5 # 100))) = 13650.
Proof. split; reflexivity. Qed.

(** ** Fixed-point scaling *)



(** The scenario of the specification: 100 and 200 become 10000 and 20000,
    and 130.00 comes back from 13000. *)
Example scaling_samples :
  Reader._upscale 100 = 10000 /\ Reader._upscale 200 = 20000
  /\ Reader._upscale (1 # 200) = 0 /\ Reader._upscale (3 # 200) = 2
  /\ (Reader._downscale 13000 == 130)%Q.
Proof. repeat split. Qed.


(** ** The order of the indexes *)

Lemma read_problem_OK (p : problem) (tr : translation) (pd : problem_data) :
  Reader._read_problem p = OK (tr, pd) ->
  tr = Reader._build_translation p
  /\ Number_of_Existing_Indexes pd = length (Existing_Indexes p)
  /\ Number_of_Possible_Indexes pd = length (Possible_Indexes p)
  /\ (length (Existing_Indexes p) < length (Index_OIDs tr))%nat
  /\ exists seq costs,
       for_each (Reader.read_scan tr)
         (replicate (length (Scan_IDs tr)) None,
          replicate (length (Index_OIDs tr)) (replicate (length (Scan_IDs tr)) None))
         (Scans p) = OK (seq, costs)
       /\ Sequential_Scan_Costs pd = seq /\ Index_Costs pd = costs
       /\ Reader.costs_R seq costs = OK (Index_Costs_R pd).
Proof.
  unfold Reader._read_problem. intros H.
  apply bind_OK in H as (_ & Ha%assert_OK & H).
  apply bool_decide_eq_true in Ha. rewrite length_replicate in Ha.
  apply bind_OK in H as ([seq costs] & Hscans & H).
  apply bind_OK in H as (iwos & _ & H).
  apply bind_OK in H as (costs_r & HR & H).
  inversion H; subst; clear H. simpl.
  repeat split; try done. exists seq, costs. done.
Qed.

Lemma enumerate_from_app {A : Type} (k : nat) (l1 l2 : list A) :
  zip (seq k (length (l1 ++ l2))) (l1 ++ l2)
  = zip (seq k (length l1)) l1 ++ zip (seq (k + length l1) (length l2)) l2.
Proof.
  rewrite length_app, seq_app. apply zip_with_app. by rewrite length_seq.
Qed.

Lemma classify_index_step (tr : translation) (pd : problem_data)
    (ex po : list index_result) (k : nat) (v o : Z) :
  Index_OIDs tr !! k = Some o ->
  Results.classify_index tr pd (ex, po) (k, v)
  = if decide (k < Results.get_num_eind pd)%nat
    then OK (ex ++ [index_entry o v], po)
    else OK (ex, po ++ [index_entry o v]).
Proof.
  intros Ho. unfold Results.classify_index, Results.get_index_oid, getitem.
  simpl. rewrite Ho. reflexivity.
Qed.

Lemma classify_existing (tr : translation) (pd : problem_data) (l : list Z) :
  forall (k : nat) (ex po : list index_result),
    (k + length l <= Results.get_num_eind pd)%nat ->
    (k + length l <= length (Index_OIDs tr))%nat ->
    for_each (Results.classify_index tr pd) (ex, po) (zip (seq k (length l)) l)
    = OK (ex ++ zip_with index_entry (drop k (Index_OIDs tr)) l, po).
Proof.
  induction l as [|v l IH]; intros k ex po He Hl; cbn [length] in *.
  - cbn. by rewrite zip_with_nil_r, app_nil_r.
  - cbn [seq zip_with for_each].
    destruct (Index_OIDs tr !! k) as [o|] eqn:Ho;
      [|apply lookup_ge_None in Ho; lia].
    rewrite (classify_index_step _ _ _ _ _ _ _ Ho), decide_True by lia.
    cbn [mbind result_bind].
    rewrite IH by lia. rewrite (drop_S _ _ _ Ho). cbn [zip_with].
    by rewrite <- app_assoc.
Qed.

Lemma classify_possible (tr : translation) (pd : problem_data) (l : list Z) :
  forall (k : nat) (ex po : list index_result),
    (Results.get_num_eind pd <= k)%nat ->
    (k + length l <= length (Index_OIDs tr))%nat ->
    for_each (Results.classify_index tr pd) (ex, po) (zip (seq k (length l)) l)
    = OK (ex, po ++ zip_with index_entry (drop k (Index_OIDs tr)) l).
Proof.
  induction l as [|v l IH]; intros k ex po He Hl; cbn [length] in *.
  - cbn. by rewrite zip_with_nil_r, app_nil_r.
  - cbn [seq zip_with for_each].
    destruct (Index_OIDs tr !! k) as [o|] eqn:Ho;
      [|apply lookup_ge_None in Ho; lia].
    rewrite (classify_index_step _ _ _ _ _ _ _ Ho), decide_False by lia.
    cbn [mbind result_bind].
    rewrite IH by lia. rewrite (drop_S _ _ _ Ho). cbn [zip_with].
    by rewrite <- app_assoc.
Qed.

(** C6: once the problem is read, the index list is the existing indexes
    followed by the possible ones; the number of indexes is the number of
    existing plus the number of possible indexes; the positions below the
    number of existing indexes hold the existing indexes; and on a solution
    with one value per index the results extractor files the index at
    position [i] under "Existing Indexes" exactly when [i] is below the number
    of existing indexes: its two lists are the existing indexes with the first
    values of the solution and the possible indexes with the remaining ones. *)
Theorem indexes_existing_then_possible
    (p : problem) (tr : translation) (pd : problem_data) :
  Reader._read_problem p = OK (tr, pd) ->
  Index_OIDs tr = (index_oid <$> Existing_Indexes p) ++ (index_oid <$> Possible_Indexes p)
  /\ Results.get_num_indexes tr = (Results.get_num_eind pd + Results.get_num_pind pd)%nat
  /\ Results.get_num_eind pd = length (Existing_Indexes p)
  /\ (forall i : nat, (i < Results.get_num_eind pd)%nat ->
        Index_OIDs tr !! i = index_oid <$> (Existing_Indexes p !! i))
  /\ forall last_solution : list Z,
       length last_solution = Results.get_num_indexes tr ->
       Results.results_indexes tr pd last_solution
       = OK (zip_with index_entry (index_oid <$> Existing_Indexes p)
               (take (Results.get_num_eind pd) last_solution),
             zip_with index_entry (index_oid <$> Possible_Indexes p)
               (drop (Results.get_num_eind pd) last_solution)).
Proof.
  intros H. apply read_problem_OK in H as (-> & HE & HP & _ & _).
  unfold Results.get_num_indexes, Results.get_num_eind, Results.get_num_pind.
  rewrite HE, HP. simpl. rewrite fmap_app.
  split; [reflexivity|].
  split; [by rewrite length_app, !length_fmap|].
  split; [reflexivity|].
  split.
  { intros i Hi. rewrite lookup_app_l by (by rewrite length_fmap).
    apply list_lookup_fmap. }
  intros sol Hlen. rewrite length_app, !length_fmap in Hlen.
  unfold Results.results_indexes, Results.enumerate.
  set (tr := Reader._build_translation p).
  assert (Htr : Index_OIDs tr
                = (index_oid <$> Existing_Indexes p) ++ (index_oid <$> Possible_Indexes p))
    by (unfold tr; simpl; apply fmap_app).
  set (nE := length (Existing_Indexes p)) in *.
  rewrite <- (take_drop nE sol) at 1 2.
  rewrite enumerate_from_app, for_each_app.
  assert (Hlt : length (take nE sol) = nE) by (rewrite length_take; lia).
  rewrite classify_existing;
    [| unfold Results.get_num_eind; rewrite HE; fold nE; lia
     | rewrite Htr, length_app, !length_fmap; fold nE; lia ].
  cbn [mbind result_bind]. rewrite classify_possible;
    [| unfold Results.get_num_eind; rewrite HE; fold nE; lia
     | rewrite Htr, length_app, !length_fmap, length_drop; fold nE; lia ].
  rewrite Hlt, Htr. cbn [app Nat.add]. rewrite drop_0.
  rewrite drop_app_length' by (by rewrite length_fmap).
  rewrite zip_with_app_l, length_fmap. fold nE.
  rewrite take_take, Nat.min_id, (drop_ge (take nE sol)) by lia.
  by rewrite zip_with_nil_r, app_nil_r.
Qed.

Lemma indexes_existing_then_possible_witness :
  Reader._read_problem Samples.workload
  = OK (Samples.workload_translation, Samples.workload_data)
  /\ Results.results_indexes Samples.workload_translation Samples.workload_data [1; 0]
     = OK ([ {| Index_OID := 1; Selected := true |} ],
           [ {| Index_OID := 2; Selected := false |} ]).
Proof.
  split; [vm_compute; reflexivity|].
  destruct (indexes_existing_then_possible Samples.workload
              Samples.workload_translation Samples.workload_data)
    as (_ & _ & _ & _ & H); [vm_compute; reflexivity|].
  exact (H [1; 0] eq_refl).
Defined.

(** ** Scans without a sequential cost *)

Lemma filter_drops {A : Type} (P : A -> Prop) `{forall x, Decision (P x)}
    (l : list A) (x : A) :
  x ∈ l -> ~ P x -> (length (filter P l) < length l)%nat.
Proof.
  intros Hin Hx. induction l as [|y l IH]; [by inversion Hin|].
  pose proof (length_filter P l) as Hle.
  apply elem_of_cons in Hin as [->|Hin].
  - rewrite filter_cons_False by exact Hx. simpl. lia.
  - specialize (IH Hin). destruct (decide (P y)).
    + rewrite filter_cons_True by done. simpl. lia.
    + rewrite filter_cons_False by done. simpl. lia.
Qed.

Lemma read_scan_null_cost (tr : translation)
    (st : list (option Z) * list (list (option Z))) (sc : scan) :
  sequential_scan_cost sc = None ->
  exists e, Reader.read_scan tr st sc = Raise e.
Proof.
  intros Hc. unfold Reader.read_scan. rewrite Hc.
  destruct (tuple_index (Scan_IDs tr) (scan_id sc)); simpl; eauto.
Qed.

(** C2, on the code: a scan whose sequential cost is [None] is left out of
    the translation table (so it would not count in [get_num_scans]), but the
    loop over the scans still visits it and raises, so [_read_problem] and
    with it the construction of the Reader fail on every such input. *)
Theorem null_sequential_cost_fails (p : problem) (sc : scan) (s : option settings) :
  sc ∈ Scans p -> sequential_scan_cost sc = None ->
  (Results.get_num_scans (Reader._build_translation p) < length (Scans p))%nat
  /\ exists e, Reader._read_problem p = Raise e /\ Reader_init p s = Raise e.
Proof.
  intros Hin Hc. split.
  - unfold Results.get_num_scans. simpl. rewrite length_fmap.
    apply (filter_drops _ _ sc Hin). intros Hne. by apply Hne.
  - unfold Reader_init, Reader._read_problem.
    destruct (assert _) as [u|e]; simpl; [|eauto].
    destruct (for_each_raises (Reader.read_scan (Reader._build_translation p))
                (Scans p) sc Hin
                (fun st => read_scan_null_cost _ st sc Hc)
                (replicate (length (Scan_IDs (Reader._build_translation p))) None,
                 replicate (length (Index_OIDs (Reader._build_translation p)))
                   (replicate (length (Scan_IDs (Reader._build_translation p))) None)))
      as [e He].
    simpl in He. rewrite He. simpl. eauto.
Qed.

Lemma null_sequential_cost_fails_witness :
  Reader._read_problem Samples.workload_with_null_cost = Raise ValueError
  /\ (Results.get_num_scans (Reader._build_translation Samples.workload_with_null_cost)
      < length (Scans Samples.workload_with_null_cost))%nat.
Proof.
  split; [vm_compute; reflexivity|].
  apply (null_sequential_cost_fails Samples.workload_with_null_cost Samples.scan_c None).
  - apply list_elem_of_lookup_2 with 2%nat. reflexivity.
  - reflexivity.
Defined.

(** ** The cost matrices *)

Lemma index_of_Some `{EqDecision A} (x : A) (l : list A) (i : nat) :
  index_of x l = Some i -> l !! i = Some x.
Proof.
  revert i. induction l as [|y l IH]; intros i Hi; simpl in Hi; [discriminate|].
  destruct (decide (y = x)) as [->|Hne].
  - by inversion Hi.
  - destruct (index_of x l) as [k|] eqn:Hk; [|discriminate].
    inversion Hi; subst. simpl. by apply IH.
Qed.

Lemma index_of_NoDup `{EqDecision A} (x : A) (l : list A) (i : nat) :
  NoDup l -> l !! i = Some x -> index_of x l = Some i.
Proof.
  intros Hnd. revert i. induction Hnd as [|y l Hy Hnd IH]; intros i Hi; [done|].
  simpl. destruct i as [|i]; simpl in Hi.
  - inversion Hi; subst. by rewrite decide_True.
  - rewrite decide_False.
    + by rewrite (IH i Hi).
    + intros ->. apply Hy. by apply list_elem_of_lookup_2 in Hi.
Qed.

Lemma tuple_index_OK `{EqDecision A} (t : list A) (x : A) (i : nat) :
  tuple_index t x = OK i -> index_of x t = Some i.
Proof. unfold tuple_index. destruct (index_of x t); intros Hi; by inversion Hi. Qed.

Lemma getitem_OK {A : Type} (l : list A) (i : nat) (x : A) :
  getitem l i = OK x -> l !! i = Some x.
Proof. unfold getitem. destruct (l !! i); intros H; by inversion H. Qed.

Lemma setitem_OK {A : Type} (l l' : list A) (i : nat) (v : A) :
  setitem l i v = OK l' -> (i < length l)%nat /\ l' = <[i := v]> l.
Proof. unfold setitem. case_decide; intros Hs; by inversion Hs. Qed.

Lemma setitem2_cell {A : Type} (m m' : list (list A)) (i0 j0 : nat) (v : A) :
  setitem2 m i0 j0 v = OK m' ->
  (exists old, cell m i0 j0 = Some old)
  /\ forall i j,
       cell m' i j = if decide (i = i0 /\ j = j0) then Some v else cell m i j.
Proof.
  unfold setitem2. intros H.
  apply bind_OK in H as (row & Hrow%getitem_OK & H).
  apply bind_OK in H as (row' & (Hj & ->)%setitem_OK & (Hi & ->)%setitem_OK).
  split.
  - unfold cell. rewrite Hrow. simpl. by apply lookup_lt_is_Some_2.
  - intros i j. unfold cell. destruct (decide (i = i0)) as [->|Hne].
    + rewrite list_lookup_insert_eq by done. rewrite Hrow. simpl.
      destruct (decide (j = j0)) as [->|Hnj].
      * rewrite decide_True by done. by apply list_lookup_insert_eq.
      * rewrite decide_False by tauto. by apply list_lookup_insert_ne.
    + rewrite decide_False by tauto. by rewrite list_lookup_insert_ne.
Qed.

Lemma cell_after_cons (oids : list Z) (s : Z) (i : nat) (ic : index_cost)
    (cl : list index_cost) (old : option Z) :
  cell_after oids s i (ic :: cl) old
  = cell_after oids s i cl (cell_step oids s i old ic).
Proof. reflexivity. Qed.

Lemma cell_step_skip (oids : list Z) (s : Z) (i : nat) (ic : index_cost)
    (old : option Z) :
  (Reader._upscale (ic_cost ic) >=? s) = true -> cell_step oids s i old ic = old.
Proof. intros Hge. unfold cell_step. rewrite Hge. by case_decide. Qed.

Lemma cell_step_other (oids : list Z) (s : Z) (i : nat) (ic : index_cost)
    (old : option Z) :
  index_of (ic_oid ic) oids <> Some i -> cell_step oids s i old ic = old.
Proof. intros Hne. unfold cell_step. by rewrite decide_False. Qed.

Lemma cell_step_hit (oids : list Z) (s : Z) (i : nat) (ic : index_cost)
    (old : option Z) :
  index_of (ic_oid ic) oids = Some i ->
  (Reader._upscale (ic_cost ic) >=? s) = false ->
  cell_step oids s i old ic = Some (Reader._upscale (ic_cost ic)).
Proof. intros Hi Hge. unfold cell_step. by rewrite decide_True, Hge. Qed.

(** The inner loop only writes column [j0], and there it does what
    [cell_after] says. *)
Lemma read_index_costs_cell (tr : translation) (j0 : nat) (s : Z)
    (cl : list index_cost) :
  forall m m' : list (list (option Z)),
    for_each (Reader.read_index_cost tr j0 s) m cl = OK m' ->
    forall i j,
      cell m' i j
      = if decide (j = j0)
        then cell_after (Index_OIDs tr) s i cl <$> cell m i j
        else cell m i j.
Proof.
  induction cl as [|ic cl IH]; intros m m' H i j.
  - inversion H; subst. case_decide; [|done].
    unfold cell_after. simpl. by destruct (cell m' i j).
  - cbn [for_each] in H. apply bind_OK in H as (m1 & Hstep & H).
    rewrite (IH _ _ H i j). clear IH H.
    destruct (decide (j = j0)) as [->|Hnj].
    + unfold Reader.read_index_cost in Hstep.
      apply bind_OK in Hstep as (idx & Hidx%tuple_index_OK & Hstep).
      destruct (Reader._upscale (ic_cost ic) >=? s) eqn:Hge.
      * inversion Hstep; subst. destruct (cell m1 i j0) as [old|]; [|done].
        cbn [fmap option_fmap option_map]. by rewrite cell_after_cons, cell_step_skip.
      * apply setitem2_cell in Hstep as ([old Hold] & Hcell).
        rewrite (Hcell i j0). destruct (decide (i = idx)) as [->|Hni].
        -- rewrite decide_True by done. rewrite Hold. cbn [fmap option_fmap option_map].
           by rewrite cell_after_cons, cell_step_hit.
        -- rewrite decide_False by tauto.
           destruct (cell m i j0) as [old'|]; [|done]. cbn [fmap option_fmap option_map].
           rewrite cell_after_cons, cell_step_other; [done|congruence].
    + unfold Reader.read_index_cost in Hstep.
      apply bind_OK in Hstep as (idx & _ & Hstep).
      destruct (Reader._upscale (ic_cost ic) >=? s).
      * by inversion Hstep.
      * apply setitem2_cell in Hstep as (_ & Hcell).
        rewrite (Hcell i j). by rewrite decide_False by tauto.
Qed.

(** One scan: its sequential cost is stored at its position, and its cost
    list is applied to its column. *)
Lemma read_scan_OK (tr : translation) (seq seq' : list (option Z))
    (m m' : list (list (option Z))) (sc : scan) :
  Reader.read_scan tr (seq, m) sc = OK (seq', m') ->
  exists (j0 : nat) (raw : Q),
    index_of (scan_id sc) (Scan_IDs tr) = Some j0
    /\ sequential_scan_cost sc = Some raw
    /\ (j0 < length seq)%nat
    /\ seq' = <[j0 := Some (Reader._upscale raw)]> seq
    /\ forall i j,
         cell m' i j
         = if decide (j = j0)
           then cell_after (Index_OIDs tr) (Reader._upscale raw) i
                  (index_costs_of sc) <$> cell m i j
           else cell m i j.
Proof.
  unfold Reader.read_scan. intros H.
  apply bind_OK in H as (j0 & Hj0%tuple_index_OK & H).
  apply bind_OK in H as (s & Hs & H).
  destruct (sequential_scan_cost sc) as [raw|]; [|discriminate].
  inversion Hs; subst; clear Hs.
  apply bind_OK in H as (seq1 & (Hlt & ->)%setitem_OK & H).
  apply bind_OK in H as (m1 & Hloop & H).
  inversion H; subst; clear H.
  exists j0, raw. repeat split; try done.
  intros i j. by apply (read_index_costs_cell _ _ _ _ _ _ Hloop).
Qed.



(** When the loop over the scans returns, every scan has a sequential cost,
    so the translation table holds every scan. *)
Lemma read_scans_all_costed (tr : translation) (scans : list scan) :
  forall st st',
    for_each (Reader.read_scan tr) st scans = OK st' ->
    Forall (fun sc => sequential_scan_cost sc <> None) scans.
Proof.
  induction scans as [|sc scans IH]; intros st st' H; [constructor|].
  cbn [for_each] in H. apply bind_OK in H as ([seq1 m1] & Hstep & H).
  constructor; [|by eapply IH].
  destruct st as [seq m].
  apply read_scan_OK in Hstep as (_ & raw & _ & Hraw & _). congruence.
Qed.




Lemma filter_all {A : Type} (P : A -> Prop) `{forall x, Decision (P x)} (l : list A) :
  Forall P l -> filter P l = l.
Proof.
  induction 1 as [|x l Hx _ IH]; [done|].
  rewrite filter_cons_True by done. by rewrite IH.
Qed.








(** ** Deep copies *)

Section StoreProperties.
Import Store.

(** A store that keeps every object of [h] where it was gives the same
    content to every value. *)
Lemma snapshot_agree (n : nat) :
  forall (h h2 : store) (v : value) (p : content),
    (forall l o, h !! l = Some o -> h2 !! l = Some o) ->
    snapshot n h v = Some p -> snapshot n h2 v = Some p.
Proof.
  induction n as [|n IH]; intros h h2 v p Hagree H; destruct v as [a|t|l];
    cbn [snapshot] in *; try done.
  destruct (h !! l) as [o|] eqn:Ho; [|done].
  rewrite (Hagree _ _ Ho).
  destruct (mapM (snapshot n h) (fields o)) as [ps|] eqn:Hps; [|done].
  cbn [fmap option_fmap option_map] in H. inversion H; subst; clear H.
  apply mapM_Some in Hps.
  assert (Hps2 : mapM (snapshot n h2) (fields o) = Some ps).
  { apply mapM_Some. eapply Forall2_impl; [exact Hps|].
    intros v p Hv. by apply (IH h h2). }
  by rewrite Hps2.
Qed.

Lemma snapshot_extend (n : nat) (h ext : store) (v : value) (p : content) :
  snapshot n h v = Some p -> snapshot n (h ++ ext) v = Some p.
Proof.
  apply snapshot_agree. intros l o Hl. by apply lookup_app_l_Some.
Qed.

(** Writes outside the first [k] locations leave them as they were. *)
Lemma mutate_all_below (k : nat) (ws : list (loc * object)) :
  forall h : store,
    Forall (fun w => (k <= w.1)%nat) ws ->
    forall l, (l < k)%nat -> mutate_all h ws !! l = h !! l.
Proof.
  induction ws as [|w ws IH]; intros h Hws l Hl; [done|].
  apply Forall_cons in Hws as [Hw Hws].
  unfold mutate_all in *. simpl. rewrite IH by done.
  unfold mutate. apply list_lookup_insert_ne. lia.
Qed.

(** What copying the items of an object yields, given what copying one value
    yields. *)
Lemma copy_items_spec (n : nat) :
  (forall (h : store) (v : value) (p : content),
      snapshot n h v = Some p ->
      exists h' v',
        deepcopy n h v = Some (h', v')
        /\ (exists new, h' = h ++ new)
        /\ (forall ext, snapshot n (h' ++ ext) v' = Some p)
        /\ (forall ext l, reach (h' ++ ext) v' l ->
              (length h <= l < length h')%nat)) ->
  forall (items : list value) (h : store) (ps : list content),
    Forall2 (fun v p => snapshot n h v = Some p) items ps ->
    exists h1 vs',
      copy_items (deepcopy n) h items = Some (h1, vs')
      /\ (exists new, h1 = h ++ new)
      /\ Forall2 (fun v' p => forall ext, snapshot n (h1 ++ ext) v' = Some p) vs' ps
      /\ (forall ext v' l, v' ∈ vs' -> reach (h1 ++ ext) v' l ->
            (length h <= l < length h1)%nat).
Proof.
  intros Hcopy. induction items as [|v items IH]; intros h ps Hps.
  - inversion Hps; subst. exists h, []. cbn [copy_items].
    split; [done|]. split; [by exists []; rewrite app_nil_r|].
    split; [constructor|]. intros ext v' l Hin. by inversion Hin.
  - inversion Hps as [|? p ? ps' Hv Hrest]; subst.
    destruct (Hcopy h v p Hv) as (ha & v' & Hdc & [newa ->] & Hsnap & Hreach).
    destruct (IH (h ++ newa) ps') as (h1 & vs' & Hci & [newb ->] & Hsnaps & Hreachs).
    { eapply Forall2_impl; [exact Hrest|]. intros; by apply snapshot_extend. }
    exists ((h ++ newa) ++ newb), (v' :: vs'). cbn [copy_items]. rewrite Hdc, Hci.
    split; [done|]. split; [by exists (newa ++ newb); rewrite app_assoc|].
    split.
    + constructor; [|done]. intros ext. rewrite <- app_assoc. apply Hsnap.
    + intros ext w l Hin Hr. rewrite !length_app.
      apply elem_of_cons in Hin as [->|Hin].
      * rewrite <- app_assoc in Hr. apply Hreach in Hr.
        rewrite length_app in Hr. lia.
      * apply (Hreachs _ _ _ Hin) in Hr. rewrite !length_app in Hr. lia.
Qed.

(** [deepcopy] of a value whose content is [p] returns; the store it returns
    extends the given one; the copy has content [p]; and every object the
    copy leads to is a new one. *)
Lemma deepcopy_spec (n : nat) :
  forall (h : store) (v : value) (p : content),
    snapshot n h v = Some p ->
    exists h' v',
      deepcopy n h v = Some (h', v')
      /\ (exists new, h' = h ++ new)
      /\ (forall ext, snapshot n (h' ++ ext) v' = Some p)
      /\ (forall ext l, reach (h' ++ ext) v' l ->
            (length h <= l < length h')%nat).
Proof.
  assert (Himm : forall n h v p,
             (forall l, v <> VRef l) -> snapshot n h v = Some p ->
             exists h' v',
               deepcopy n h v = Some (h', v')
               /\ (exists new, h' = h ++ new)
               /\ (forall ext, snapshot n (h' ++ ext) v' = Some p)
               /\ (forall ext l, reach (h' ++ ext) v' l ->
                     (length h <= l < length h')%nat)).
  { intros k h v p Hv H. exists h, v.
    destruct v as [a|t|l]; [| |by destruct (Hv l)];
      (split; [by destruct k|]; split; [by exists []; rewrite app_nil_r|];
       split; [by destruct k|]; intros ext l' Hr; inversion Hr). }
  induction n as [|n IH]; intros h v p H.
  - destruct v as [a|t|l]; [by apply Himm..|done].
  - destruct v as [a|t|l]; [by apply Himm..|].
    cbn [snapshot] in H. destruct (h !! l) as [o|] eqn:Ho; [|done].
    destruct (mapM (snapshot n h) (fields o)) as [ps|] eqn:Hps; [|done].
    cbn [fmap option_fmap option_map] in H. inversion H; subst; clear H.
    apply mapM_Some in Hps.
    destruct (copy_items_spec n IH (fields o) h ps Hps)
      as (h1 & vs' & Hci & [new ->] & Hsnaps & Hreachs).
    set (o' := {| shape := shape o; fields := vs' |}).
    exists ((h ++ new) ++ [o']), (VRef (length (h ++ new))).
    cbn [deepcopy]. rewrite Ho, Hci.
    split; [done|]. split; [by exists (new ++ [o']); rewrite app_assoc|].
    assert (Hat : forall ext,
               (((h ++ new) ++ [o']) ++ ext) !! length (h ++ new) = Some o').
    { intros ext. rewrite <- app_assoc. rewrite lookup_app_r by lia.
      by rewrite Nat.sub_diag. }
    split.
    + intros ext. cbn [snapshot]. rewrite Hat.
      assert (Hm : mapM (snapshot n (((h ++ new) ++ [o']) ++ ext)) vs' = Some ps).
      { apply mapM_Some. eapply Forall2_impl; [exact Hsnaps|].
        intros w q Hw. rewrite <- app_assoc. apply Hw. }
      change (fields o') with vs'. change (shape o') with (shape o).
      by rewrite Hm.
    + intros ext l' Hr. rewrite !length_app. cbn [length].
      inversion Hr as [? ? Hl|? o2 w ? Hl Hin Hrw]; subst.
      * rewrite !length_app. lia.
      * rewrite Hat in Hl. inversion Hl; subst o2. cbn [fields o'] in Hin.
        rewrite <- app_assoc in Hrw. apply (Hreachs _ _ _ Hin) in Hrw.
        rewrite !length_app in Hrw. lia.
Qed.

End StoreProperties.

Example read_workload_settings :
  ReaderSettings._read_settings Samples.workload_data Samples.settings_no_goals
  = OK Layout.workload_settings.
Proof. vm_compute. reflexivity. Qed.

Section AccessorProperties.
Import Store.

Lemma call_deepcopy (a : accessor) (n : nat) (rd : reader) (h : store) :
  call a n rd h = deepcopy n h (VRef (stored rd a)).
Proof. by destruct a. Qed.

(** C10: when the dictionary behind an accessor has content [p], the accessor
    returns a value of content [p] made of new objects only; after any writes
    to objects that were not in the store when the accessor was called (the
    returned structure is made of such objects), each of the four
    dictionaries of the Reader still has the content it had, and calling an
    accessor again returns a value of that content. *)
Theorem accessors_return_deep_copies
    (a : accessor) (n : nat) (rd : reader) (h : store) (p : content) :
  snapshot n h (VRef (stored rd a)) = Some p ->
  exists h1 v1,
    call a n rd h = Some (h1, v1)
    /\ snapshot n h1 v1 = Some p
    /\ (forall l, reach h1 v1 l -> (length h <= l < length h1)%nat)
    /\ forall ws : list (loc * object),
         Forall (fun w => (length h <= w.1)%nat) ws ->
         forall (a' : accessor) (p' : content),
           snapshot n h (VRef (stored rd a')) = Some p' ->
           snapshot n (mutate_all h1 ws) (VRef (stored rd a')) = Some p'
           /\ exists h2 v2,
                call a' n rd (mutate_all h1 ws) = Some (h2, v2)
                /\ snapshot n h2 v2 = Some p'.
Proof.
  intros Hp.
  destruct (deepcopy_spec n h _ p Hp) as (h1 & v1 & Hdc & [new ->] & Hsnap & Hreach).
  exists (h ++ new), v1. rewrite call_deepcopy.
  split; [done|].
  split; [by rewrite <- (app_nil_r (h ++ new)) at 1|].
  split.
  { intros l Hl. apply (Hreach []). by rewrite app_nil_r. }
  intros ws Hws a' p' Hp'.
  assert (Hkept : snapshot n (mutate_all (h ++ new) ws) (VRef (stored rd a')) = Some p').
  { apply (snapshot_agree n h); [|done].
    intros l o Hl.
    rewrite (mutate_all_below (length h)) by (done || by eapply lookup_lt_Some).
    by apply lookup_app_l_Some. }
  split; [done|].
  destruct (deepcopy_spec n _ _ p' Hkept) as (h2 & v2 & Hdc2 & _ & Hsnap2 & _).
  exists h2, v2. rewrite call_deepcopy.
  split; [done|]. by rewrite <- (app_nil_r h2) at 1.
Qed.

Lemma accessors_return_deep_copies_witness :
  snapshot 4 Layout.workload_store.1 (VRef (_problem Layout.workload_store.2))
  = Some (Layout.content_of_problem_data Samples.workload_data)
  /\ exists h1 v1,
       get_problem 4 Layout.workload_store.2 Layout.workload_store.1 = Some (h1, v1)
       /\ snapshot 4 h1 v1 = Some (Layout.content_of_problem_data Samples.workload_data).
Proof.
  split; [vm_compute; reflexivity|].
  destruct (accessors_return_deep_copies Get_problem 4 Layout.workload_store.2
              Layout.workload_store.1
              (Layout.content_of_problem_data Samples.workload_data))
    as (h1 & v1 & Hcall & Hsnap & _); [vm_compute; reflexivity|].
  exists h1, v1. split; [exact Hcall | exact Hsnap].
Defined.

(** On the sample store: the dictionary returned by [get_problem] is a new
    object; emptying it leaves the stored problem as it was, whereas the same
    write to the stored dictionary itself would not. *)
Example get_problem_then_mutate :
  let h := Layout.workload_store.1 in
  let rd := Layout.workload_store.2 in
  let p := Layout.content_of_problem_data Samples.workload_data in
  exists h1 l1,
    get_problem 4 rd h = Some (h1, VRef l1)
    /\ l1 <> _problem rd
    /\ snapshot 4 (mutate h1 (l1, Layout.emptied)) (VRef (_problem rd)) = Some p
    /\ snapshot 4 (mutate h1 (l1, Layout.emptied)) (VRef l1)
       = Some (CObject (KDict []) [])
    /\ snapshot 4 (mutate h (_problem rd, Layout.emptied)) (VRef (_problem rd))
       = Some (CObject (KDict []) []).
Proof.
  eexists _, _. split; [vm_compute; reflexivity|].
  split; [vm_compute; lia|].
  repeat split; vm_compute; reflexivity.
Qed.

End AccessorProperties.

(** * Further properties of the Reader *)

(** ** What [_read_problem] stores *)

Lemma read_problem_parts (p : problem) (tr : translation) (pd : problem_data) :
  Reader._read_problem p = OK (tr, pd) ->
  let nS := length (Scan_IDs tr) in
  let nI := length (Index_OIDs tr) in
  tr = Reader._build_translation p
  /\ (length (Existing_Indexes p) < nI)%nat
  /\ exists seq costs iwos costs_r,
       for_each (Reader.read_scan tr)
         (replicate nS None, replicate nI (replicate nS None)) (Scans p)
       = OK (seq, costs)
       /\ for_each (Reader.read_index tr) (replicate nI None)
            (Existing_Indexes p ++ Possible_Indexes p) = OK iwos
       /\ Reader.costs_R seq costs = OK costs_r
       /\ pd = {| Number_of_Existing_Indexes := length (Existing_Indexes p);
                  Number_of_Possible_Indexes := length (Possible_Indexes p);
                  Sequential_Scan_Costs := seq;
                  Index_Costs := costs;
                  Index_IWOs := iwos;
                  Index_Costs_B := Reader.costs_B costs;
                  Index_Costs_R := costs_r |}.
Proof.
  unfold Reader._read_problem. intros H.
  apply bind_OK in H as (_ & Ha%assert_OK & H).
  apply bool_decide_eq_true in Ha. rewrite length_replicate in Ha.
  apply bind_OK in H as ([seq costs] & Hscans & H).
  apply bind_OK in H as (iwos & Hiwos & H).
  apply bind_OK in H as (costs_r & HR & H).
  inversion H; subst; clear H. cbn zeta.
  split; [done|]. split; [done|].
  exists seq, costs, iwos, costs_r. done.
Qed.

Lemma setitem_length {A : Type} (l l' : list A) (i : nat) (v : A) :
  setitem l i v = OK l' -> length l' = length l.
Proof. intros (_ & ->)%setitem_OK. apply length_insert. Qed.

Lemma setitem2_dimensions {A : Type} (m m' : list (list A)) (i j : nat) (v : A)
    (rows cols : nat) :
  setitem2 m i j v = OK m' ->
  matrix_dimensions m rows cols -> matrix_dimensions m' rows cols.
Proof.
  unfold setitem2. intros H [Hrows Hcols].
  apply bind_OK in H as (row & Hrow%getitem_OK & H).
  apply bind_OK in H as (row' & (Hj & ->)%setitem_OK & (Hi & ->)%setitem_OK).
  split; [by rewrite length_insert|].
  apply Forall_insert; [done|]. rewrite length_insert.
  rewrite Forall_forall in Hcols. apply Hcols.
  by apply list_elem_of_lookup_2 in Hrow.
Qed.

Lemma read_scan_dimensions (tr : translation) (rows cols : nat) (sc : scan)
    (st st' : list (option Z) * list (list (option Z))) :
  Reader.read_scan tr st sc = OK st' ->
  length st.1 = cols /\ matrix_dimensions st.2 rows cols ->
  length st'.1 = cols /\ matrix_dimensions st'.2 rows cols.
Proof.
  unfold Reader.read_scan. intros H [Hseq Hm].
  apply bind_OK in H as (j0 & _ & H).
  apply bind_OK in H as (s & _ & H).
  apply bind_OK in H as (seq1 & Hset%setitem_length & H).
  apply bind_OK in H as (m1 & Hloop & H).
  inversion H as [Hst']; clear H. cbn [fst snd]. split; [congruence|].
  eapply (for_each_invariant (fun m => matrix_dimensions m rows cols));
    [|exact Hm|exact Hloop].
  intros m x m' _ Hdim Hstep. unfold Reader.read_index_cost in Hstep.
  apply bind_OK in Hstep as (idx & _ & Hstep).
  destruct (Reader._upscale (ic_cost x) >=? s).
  - by inversion Hstep; subst.
  - by eapply setitem2_dimensions.
Qed.

Lemma map_enumerate_length {A B : Type} (f : nat -> A -> result B) (l : list A) :
  forall (k : nat) (l' : list B), map_enumerate f k l = OK l' -> length l' = length l.
Proof.
  induction l as [|a l IH]; intros k l' H; simpl in H.
  - by inversion H.
  - apply bind_OK in H as (b & _ & H). apply bind_OK in H as (bs & Hbs & H).
    inversion H; subst. simpl. f_equal. by eapply IH.
Qed.

Lemma costs_R_dimensions (seq : list (option Z)) (m r : list (list (option Z)))
    (rows cols : nat) :
  Reader.costs_R seq m = OK r ->
  matrix_dimensions m rows cols -> matrix_dimensions r rows cols.
Proof.
  unfold Reader.costs_R. intros H%map_each_OK [Hrows Hcols]. split.
  - by rewrite <- (Forall2_length _ _ _ H).
  - clear Hrows. induction H as [|row row' m r Hrow _ IH]; [constructor|].
    apply Forall_cons in Hcols as [Hc Hcols].
    constructor; [|by apply IH].
    by rewrite (map_enumerate_length _ _ _ _ Hrow).
Qed.

Lemma costs_B_dimensions (m : list (list (option Z))) (rows cols : nat) :
  matrix_dimensions m rows cols -> matrix_dimensions (Reader.costs_B m) rows cols.
Proof.
  intros [Hrows Hcols]. unfold Reader.costs_B. split.
  - by rewrite length_fmap.
  - apply Forall_fmap. eapply Forall_impl; [exact Hcols|].
    intros row Hrow. simpl. by rewrite length_fmap.
Qed.

Lemma replicate_dimensions {A : Type} (rows cols : nat) (x : A) :
  matrix_dimensions (replicate rows (replicate cols x)) rows cols.
Proof.
  split; [apply length_replicate|].
  apply Forall_replicate. apply length_replicate.
Qed.

(** X1: whatever the workload, once [_read_problem] returns the stored
    vectors and matrices have the sizes of the translation tables: one
    sequential cost per scan, one write overhead per index, and the three
    cost matrices have one row per index and one column per scan; the number
    of indexes is the number of existing plus the number of possible ones,
    and there is at least one possible index. *)
Theorem read_problem_dimensions (p : problem) (tr : translation) (pd : problem_data) :
  Reader._read_problem p = OK (tr, pd) ->
  let nS := Results.get_num_scans tr in
  let nI := Results.get_num_indexes tr in
  length (Sequential_Scan_Costs pd) = nS
  /\ length (Index_IWOs pd) = nI
  /\ matrix_dimensions (Index_Costs pd) nI nS
  /\ matrix_dimensions (Index_Costs_B pd) nI nS
  /\ matrix_dimensions (Index_Costs_R pd) nI nS
  /\ nI = (Results.get_num_eind pd + Results.get_num_pind pd)%nat
  /\ (1 <= Results.get_num_pind pd)%nat.
Proof.
  intros H nS nI.
  apply read_problem_parts in H
    as (Htr & Hlt & seq & costs & iwos & costs_r & Hscans & Hiwos & HR & ->).
  fold nS nI in Hscans, Hiwos, Hlt. simpl.
  assert (Hst : length seq = nS /\ matrix_dimensions costs nI nS).
  { pose proof (for_each_invariant
                  (fun st : list (option Z) * list (list (option Z)) =>
                     length st.1 = nS /\ matrix_dimensions st.2 nI nS)
                  (Reader.read_scan tr) (Scans p)) as Hinv.
    cbv beta in Hinv.
    assert (Hbody : forall st sc st', sc ∈ Scans p ->
               length st.1 = nS /\ matrix_dimensions st.2 nI nS ->
               Reader.read_scan tr st sc = OK st' ->
               length st'.1 = nS /\ matrix_dimensions st'.2 nI nS).
    { intros st sc st' _ Hdim Hstep. by eapply read_scan_dimensions. }
    apply (Hinv Hbody (replicate nS None, replicate nI (replicate nS None))
             (seq, costs)); [|exact Hscans].
    split; [apply length_replicate | apply replicate_dimensions]. }
  destruct Hst as [Hseq Hcosts].
  assert (Hnum : nI = (length (Existing_Indexes p) + length (Possible_Indexes p))%nat).
  { unfold nI, Results.get_num_indexes. rewrite Htr. simpl.
    by rewrite length_fmap, length_app. }
  split; [exact Hseq|]. split.
  { eapply (for_each_invariant (fun l : list (option Z) => length l = nI));
      [|apply length_replicate|exact Hiwos].
    intros l ix l' _ Hl Hstep. unfold Reader.read_index in Hstep.
    apply bind_OK in Hstep as (idx & _ & Hstep%setitem_length). congruence. }
  split; [exact Hcosts|].
  split; [by apply costs_B_dimensions|].
  split; [by eapply costs_R_dimensions|].
  split; [exact Hnum|].
  unfold Results.get_num_pind. simpl.
  unfold nI, Results.get_num_indexes in Hnum. lia.
Qed.

Lemma read_problem_dimensions_witness :
  Reader._read_problem Samples.workload
  = OK (Samples.workload_translation, Samples.workload_data)
  /\ matrix_dimensions (Index_Costs_R Samples.workload_data) 2 2.
Proof.
  split; [vm_compute; reflexivity|].
  apply (read_problem_dimensions Samples.workload Samples.workload_translation
           Samples.workload_data).
  vm_compute; reflexivity.
Defined.





(** ** The write overheads *)







(** ** The settings *)

Lemma read_settings_parts (pd : problem_data) (s : settings) (sd : settings_data) :
  ReaderSettings._read_settings pd s = OK sd ->
  exists opts : options,
    let given := default [] (Rules opts) in
    let rules1 :=
      given ++ filter (fun d => rule_Name d ∉ (rule_Name <$> given))
                 ReaderSettings._rule_defaults in
    Options s = Some opts
    /\ NoDup (rule_Name <$> given)
    /\ Forall2 (fun r r' => ReaderSettings.set_default_value pd r = OK r')
         rules1 (settings_Rules sd)
    /\ settings_Goals sd = default ReaderSettings.default_goals (Goals opts)
    /\ match Time_Limit s with
       | Some v => _time_limit sd = v /\ isinstance_int_float v = true
                   /\ json_ge v 0 = OK true
       | None => _time_limit sd = JInt 999999
       end.
Proof.
  unfold ReaderSettings._read_settings. intros H.
  destruct (Options s) as [opts|]; [|discriminate]. simpl in H.
  apply bind_OK in H as (_ & Hnd%assert_OK & H).
  apply bool_decide_eq_true in Hnd.
  apply bind_OK in H as (rules2 & Hmap%map_each_OK & H).
  apply bind_OK in H as (tl & Htl & H).
  inversion H; subst; clear H. simpl.
  exists opts. cbn zeta.
  assert (Hgiven : match Rules opts with Some r => r | None => [] end
                   = default [] (Rules opts)) by (by destruct (Rules opts)).
  rewrite Hgiven in *.
  split; [done|]. split; [done|]. split; [done|].
  split; [by destruct (Goals opts)|].
  destruct (Time_Limit s) as [v|].
  - apply bind_OK in Htl as (_ & Hi%assert_OK & Htl).
    apply bind_OK in Htl as (ge & Hge & Htl).
    apply bind_OK in Htl as (_ & ->%assert_OK & Htl).
    by inversion Htl; subst.
  - by inversion Htl.
Qed.

Lemma set_default_value_name (pd : problem_data) (r r' : rule) :
  ReaderSettings.set_default_value pd r = OK r' -> rule_Name r' = rule_Name r.
Proof.
  unfold ReaderSettings.set_default_value. intros H.
  apply bind_OK in H as (r1 & H1 & H2).
  assert (Hn1 : rule_Name r1 = rule_Name r).
  { unfold ReaderSettings.set_maximum_num_indexes in H1.
    case_decide; [|by inversion H1].
    apply bind_OK in H1 as (_ & _ & H1). apply bind_OK in H1 as (ge & _ & H1).
    apply bind_OK in H1 as (_ & _ & H1). inversion H1; subst.
    by destruct (rule_Value r). }
  rewrite <- Hn1. unfold ReaderSettings.set_maximum_iwo in H2.
  case_decide; [|by inversion H2].
  destruct (rule_Value r1) eqn:Hv;
    try (apply bind_OK in H2 as (_ & _ & H2); apply bind_OK in H2 as (ge & _ & H2);
         apply bind_OK in H2 as (_ & _ & H2); by inversion H2).
  apply bind_OK in H2 as (total & _ & H2). by inversion H2.
Qed.

Lemma rule_value_lookup (rules : list rule) (r : rule) :
  NoDup (rule_Name <$> rules) -> r ∈ rules ->
  Accessors.rule_value (rule_Name r) rules = rule_Value r.
Proof.
  induction rules as [|r0 rules IH]; intros Hnd Hin; [by inversion Hin|].
  rewrite fmap_cons in Hnd. apply NoDup_cons in Hnd as [Hfresh Hnd].
  simpl. apply elem_of_cons in Hin as [->|Hin].
  - by rewrite decide_True.
  - rewrite decide_False; [by apply IH|].
    intros Heq. apply Hfresh. rewrite Heq. by apply list_elem_of_fmap_2.
Qed.

(** The rules handed to the loop that sets the defaults have distinct names,
    and a rule of each default name is among them: the given one, or else the
    default with value [None]. *)
Lemma rules_with_defaults (given : list rule) (name : string) :
  NoDup (rule_Name <$> given) ->
  name = ReaderSettings.Maximum_Number_of_Possible_Indexes
  \/ name = ReaderSettings.Maximum_Index_Write_Overhead ->
  let rules1 :=
    given ++ filter (fun d => rule_Name d ∉ (rule_Name <$> given))
               ReaderSettings._rule_defaults in
  NoDup (rule_Name <$> rules1)
  /\ exists r, r ∈ rules1 /\ rule_Name r = name
               /\ (r ∈ given
                   \/ ((forall r0, r0 ∈ given -> rule_Name r0 <> name)
                       /\ rule_Value r = JNull)).
Proof.
  intros Hnd Hname rules1. subst rules1.
  unfold ReaderSettings._rule_defaults.
  set (d1 := {| rule_Name := ReaderSettings.Maximum_Number_of_Possible_Indexes;
                rule_Value := JNull |}).
  set (d2 := {| rule_Name := ReaderSettings.Maximum_Index_Write_Overhead;
                rule_Value := JNull |}).
  assert (Hd : rule_Name d1 <> rule_Name d2) by (vm_compute; discriminate).
  assert (Habsent : forall n, n ∉ (rule_Name <$> given) ->
             forall r0, r0 ∈ given -> rule_Name r0 <> n).
  { intros n Hn r0 Hin <-. apply Hn. by apply list_elem_of_fmap_2. }
  assert (Hpresent : forall n, n ∈ (rule_Name <$> given) ->
             exists r, r ∈ given /\ rule_Name r = n).
  { intros n (r & -> & Hin)%list_elem_of_fmap. eauto. }
  destruct (decide (rule_Name d1 ∈ (rule_Name <$> given))) as [H1|H1];
    destruct (decide (rule_Name d2 ∈ (rule_Name <$> given))) as [H2|H2].
  - rewrite filter_cons_False by tauto. rewrite filter_cons_False by tauto.
    rewrite filter_nil, app_nil_r. split; [done|].
    destruct Hname as [->| ->];
      [destruct (Hpresent _ H1) as (r & Hr & Hn)
      |destruct (Hpresent _ H2) as (r & Hr & Hn)];
      exists r; auto.
  - rewrite filter_cons_False by tauto. rewrite filter_cons_True by done.
    rewrite filter_nil. split.
    + rewrite fmap_app. apply NoDup_app. split; [done|]. split.
      * intros n Hn Hin. apply list_elem_of_singleton in Hin. by subst.
      * apply NoDup_singleton.
    + destruct Hname as [->| ->].
      * destruct (Hpresent _ H1) as (r & Hr & Hn).
        exists r. split; [apply elem_of_app; by left|]. auto.
      * exists d2. split; [apply elem_of_app; right; by apply list_elem_of_here|].
        split; [done|]. right. split; [by apply Habsent | done].
  - rewrite filter_cons_True by done. rewrite filter_cons_False by tauto.
    rewrite filter_nil. split.
    + rewrite fmap_app. apply NoDup_app. split; [done|]. split.
      * intros n Hn Hin. apply list_elem_of_singleton in Hin. by subst.
      * apply NoDup_singleton.
    + destruct Hname as [->| ->].
      * exists d1. split; [apply elem_of_app; right; by apply list_elem_of_here|].
        split; [done|]. right. split; [by apply Habsent | done].
      * destruct (Hpresent _ H2) as (r & Hr & Hn).
        exists r. split; [apply elem_of_app; by left|]. auto.
  - rewrite filter_cons_True by done. rewrite filter_cons_True by done.
    rewrite filter_nil. split.
    + rewrite fmap_app. apply NoDup_app. split; [done|]. split.
      * intros n Hn Hin. apply elem_of_cons in Hin as [->|Hin]; [done|].
        apply list_elem_of_singleton in Hin. by subst.
      * apply NoDup_cons. split; [|apply NoDup_singleton].
        intros Hin. apply list_elem_of_singleton in Hin. done.
    + destruct Hname as [->| ->].
      * exists d1. split; [apply elem_of_app; right; by apply list_elem_of_here|].
        split; [done|]. right. split; [by apply Habsent | done].
      * exists d2. split; [apply elem_of_app; right; right; by apply list_elem_of_here|].
        split; [done|]. right. split; [by apply Habsent | done].
Qed.

(** What the accessor of a rule returns once the settings are read: the value
    the loop left in the rule of that name. *)
Lemma stored_rule_value (pd : problem_data) (s : settings) (sd : settings_data)
    (name : string) :
  ReaderSettings._read_settings pd s = OK sd ->
  name = ReaderSettings.Maximum_Number_of_Possible_Indexes
  \/ name = ReaderSettings.Maximum_Index_Write_Overhead ->
  exists (opts : options) (r r' : rule),
    Options s = Some opts
    /\ rule_Name r = name
    /\ (r ∈ default [] (Rules opts)
        \/ ((forall r0, r0 ∈ default [] (Rules opts) -> rule_Name r0 <> name)
            /\ rule_Value r = JNull))
    /\ ReaderSettings.set_default_value pd r = OK r'
    /\ Accessors.rule_value name (settings_Rules sd) = rule_Value r'.
Proof.
  intros H Hname.
  apply read_settings_parts in H as (opts & Ho & Hnd & Hmap & _).
  destruct (rules_with_defaults _ name Hnd Hname) as (Hnd1 & r & Hin & Hn & Hsrc).
  apply list_elem_of_lookup_1 in Hin as [k Hk].
  destruct (Forall2_lookup_l _ _ _ _ _ Hmap Hk) as (r' & Hk' & Hr').
  exists opts, r, r'. repeat split; try done.
  assert (Hnames : rule_Name <$> settings_Rules sd
                   = rule_Name <$> (default [] (Rules opts)
                       ++ filter (fun d => rule_Name d ∉ (rule_Name <$> default [] (Rules opts)))
                            ReaderSettings._rule_defaults)).
  { symmetry. clear -Hmap. induction Hmap as [|a b l l' Hab _ IH]; [done|].
    rewrite !fmap_cons, IH. f_equal. symmetry. by eapply set_default_value_name. }
  rewrite <- Hn, <- (set_default_value_name _ _ _ Hr').
  apply rule_value_lookup.
  - by rewrite Hnames.
  - by eapply list_elem_of_lookup_2.
Qed.

(** X4: settings that name a rule twice are rejected with the assertion
    "Duplicate rules in settings input", whatever else they hold. *)
Theorem duplicate_rules_rejected
    (pd : problem_data) (s : settings) (opts : options) (rules : list rule) :
  Options s = Some opts -> Rules opts = Some rules ->
  ~ NoDup (rule_Name <$> rules) ->
  ReaderSettings._read_settings pd s = Raise AssertionError.
Proof.
  intros Ho Hr Hdup. unfold ReaderSettings._read_settings.
  rewrite Ho. simpl. rewrite Hr.
  by rewrite bool_decide_eq_false_2.
Qed.

Lemma duplicate_rules_rejected_witness :
  ReaderSettings._read_settings Samples.workload_data
    {| Options :=
         Some {| Goals := None;
                 Rules := Some [ {| rule_Name := "Maximum Index Write Overhead";
                                    rule_Value := JInt 5 |};
                                 {| rule_Name := "Maximum Index Write Overhead";
                                    rule_Value := JInt 7 |} ] |};
       Time_Limit := None |}
  = Raise AssertionError.
Proof.
  eapply duplicate_rules_rejected; [reflexivity | reflexivity |].
  intros Hnd. apply NoDup_cons in Hnd as [Hfresh _].
  apply Hfresh. apply list_elem_of_here.
Defined.

(** X5: a Reader built without a settings argument never comes into being:
    the settings default to the empty object, and [_read_settings] raises
    [KeyError] on its missing "Options" as soon as the problem itself is
    accepted. *)
Theorem reader_without_settings_fails (p : problem) :
  (forall rdr, Reader_init p None <> OK rdr)
  /\ forall tr pd, Reader._read_problem p = OK (tr, pd) ->
       Reader_init p None = Raise KeyError.
Proof.
  unfold Reader_init. split.
  - intros rdr. destruct (Reader._read_problem p) as [[tr pd]|e]; discriminate.
  - intros tr pd ->. reflexivity.
Qed.

(** X6: once the settings are accepted, [get_maximum_num_indexes] returns an
    integer of at least 1 ([True] counting as 1), never [None] and never 0;
    when the settings give no such rule, or give it the value [null], it
    returns the number of possible indexes. *)
Theorem maximum_num_indexes_stored
    (pd : problem_data) (s : settings) (sd : settings_data) :
  ReaderSettings._read_settings pd s = OK sd ->
  (Accessors.get_maximum_num_indexes sd = JBool true
   \/ exists n, Accessors.get_maximum_num_indexes sd = JInt n /\ 1 <= n)
  /\ forall opts, Options s = Some opts ->
       (forall r, r ∈ default [] (Rules opts) ->
          rule_Name r = ReaderSettings.Maximum_Number_of_Possible_Indexes ->
          rule_Value r = JNull) ->
       Accessors.get_maximum_num_indexes sd = JInt (Z.of_nat (Results.get_num_pind pd)).
Proof.
  intros H. unfold Accessors.get_maximum_num_indexes.
  destruct (stored_rule_value pd s sd _ H (or_introl eq_refl))
    as (opts & r & r' & Ho & Hn & Hsrc & Hset & ->).
  unfold ReaderSettings.set_default_value in Hset.
  apply bind_OK in Hset as (r1 & H1 & H2).
  assert (Hr1 : rule_Name r1 = rule_Name r).
  { assert (Hfull : ReaderSettings.set_default_value pd r = OK r')
      by (unfold ReaderSettings.set_default_value; by rewrite H1).
    unfold ReaderSettings.set_maximum_num_indexes in H1.
    rewrite decide_True in H1 by done.
    apply bind_OK in H1 as (_ & _ & H1). apply bind_OK in H1 as (ge & _ & H1).
    apply bind_OK in H1 as (_ & _ & H1). inversion H1; subst.
    by destruct (rule_Value r). }
  unfold ReaderSettings.set_maximum_iwo in H2.
  rewrite decide_False in H2 by (rewrite Hr1, Hn; vm_compute; discriminate).
  inversion H2; subst r'; clear H2.
  unfold ReaderSettings.set_maximum_num_indexes in H1.
  rewrite decide_True in H1 by done.
  apply bind_OK in H1 as (_ & Hint%assert_OK & H1).
  apply bind_OK in H1 as (ge & Hge & H1).
  apply bind_OK in H1 as (_ & ->%assert_OK & H1).
  inversion H1 as [Hr1']; clear H1. rewrite Hr1' in *.
  assert (Hval : rule_Value r1 = JBool true
                 \/ exists n, rule_Value r1 = JInt n /\ 1 <= n).
  { destruct (rule_Value r1) as [|[|]|n|q|str|]; try discriminate; auto.
    right. exists n. split; [done|].
    unfold json_ge in Hge. simpl in Hge. inversion Hge as [Hle].
    apply Qle_bool_iff in Hle. unfold Qle in Hle. simpl in Hle. lia. }
  split; [exact Hval|].
  intros opts' Ho' Hnull. assert (opts' = opts) as -> by congruence.
  assert (Hv : rule_Value r = JNull).
  { destruct Hsrc as [Hin|[_ Hv]]; [by apply Hnull | done]. }
  rewrite <- Hr1', Hv. reflexivity.
Qed.

Lemma maximum_num_indexes_stored_witness :
  ReaderSettings._read_settings Samples.workload_data Samples.settings_no_goals
  = OK Layout.workload_settings
  /\ Accessors.get_maximum_num_indexes Layout.workload_settings = JInt 1.
Proof.
  split; [vm_compute; reflexivity|].
  destruct (maximum_num_indexes_stored Samples.workload_data
              Samples.settings_no_goals Layout.workload_settings)
    as [_ H]; [vm_compute; reflexivity|].
  apply (H {| Goals := None; Rules := None |} eq_refl).
  intros r Hin. by inversion Hin.
Defined.

Lemma reader_without_settings_fails_witness :
  Reader_init Samples.workload None = Raise KeyError.
Proof.
  apply (proj2 (reader_without_settings_fails Samples.workload)
           Samples.workload_translation Samples.workload_data).
  vm_compute; reflexivity.
Defined.

Lemma rule_of_name_unique (rules : list rule) (r1 r2 : rule) :
  NoDup (rule_Name <$> rules) -> r1 ∈ rules -> r2 ∈ rules ->
  rule_Name r1 = rule_Name r2 -> r1 = r2.
Proof.
  intros Hnd H1 H2 Hn.
  pose proof (rule_value_lookup rules r1 Hnd H1) as Hv1.
  pose proof (rule_value_lookup rules r2 Hnd H2) as Hv2.
  rewrite Hn, Hv2 in Hv1. destruct r1, r2; simpl in *. congruence.
Qed.

Lemma set_maximum_iwo_given (pd : problem_data) (r r' : rule) :
  rule_Name r = ReaderSettings.Maximum_Index_Write_Overhead ->
  rule_Value r <> JNull ->
  ReaderSettings.set_maximum_iwo pd r = OK r' ->
  r' = r /\ exists q, json_number (rule_Value r) = Some q /\ (0 <= q)%Q.
Proof.
  intros Hn Hv H. unfold ReaderSettings.set_maximum_iwo in H.
  rewrite decide_True in H by done.
  destruct r as [name v]. simpl in *.
  destruct v as [|b|n|q|str|]; [done|..];
    apply bind_OK in H as (_ & Hi%assert_OK & H); try discriminate;
    apply bind_OK in H as (ge & Hge & H);
    apply bind_OK in H as (_ & ->%assert_OK & H);
    inversion H; subst; (split; [done|]);
    unfold json_ge in Hge; simpl in Hge;
    inversion Hge as [Hle]; apply Qle_bool_iff in Hle; eauto.
Qed.

(** X7: once the settings are accepted, [get_maximum_iwo] returns the sum of
    the stored write overheads when the settings give no such rule or give it
    the value [null]; a value that is given is returned as it is, and it is a
    number of at least 0. *)
Theorem maximum_iwo_stored
    (pd : problem_data) (s : settings) (sd : settings_data) (opts : options) :
  ReaderSettings._read_settings pd s = OK sd ->
  Options s = Some opts ->
  ((forall r, r ∈ default [] (Rules opts) ->
      rule_Name r = ReaderSettings.Maximum_Index_Write_Overhead ->
      rule_Value r = JNull) ->
   exists total, py_sum (Index_IWOs pd) = OK total
                 /\ Accessors.get_maximum_iwo sd = JInt total)
  /\ forall r, r ∈ default [] (Rules opts) ->
       rule_Name r = ReaderSettings.Maximum_Index_Write_Overhead ->
       rule_Value r <> JNull ->
       Accessors.get_maximum_iwo sd = rule_Value r
       /\ exists q, json_number (rule_Value r) = Some q /\ (0 <= q)%Q.
Proof.
  intros H Ho. unfold Accessors.get_maximum_iwo.
  destruct (stored_rule_value pd s sd _ H (or_intror eq_refl))
    as (opts' & r0 & r' & Ho' & Hn & Hsrc & Hset & ->).
  assert (opts' = opts) as -> by congruence.
  pose proof (read_settings_parts _ _ _ H) as (opts' & Ho'' & Hnd & _).
  assert (opts' = opts) as -> by congruence. cbn zeta in Hnd.
  unfold ReaderSettings.set_default_value in Hset.
  apply bind_OK in Hset as (r1 & H1 & H2).
  unfold ReaderSettings.set_maximum_num_indexes in H1.
  rewrite decide_False in H1 by (rewrite Hn; vm_compute; discriminate).
  inversion H1; subst r1; clear H1.
  unfold ReaderSettings.set_maximum_iwo in H2.
  rewrite decide_True in H2 by done.
  split.
  - intros Hnull.
    assert (Hv : rule_Value r0 = JNull).
    { destruct Hsrc as [Hin|[_ Hv]]; [by apply Hnull | done]. }
    rewrite Hv in H2. apply bind_OK in H2 as (total & Hsum & H2).
    inversion H2; subst. exists total. by split.
  - intros r Hin Hname Hv.
    assert (r0 = r) as ->.
    { destruct Hsrc as [Hin0|[Hnone _]].
      - apply (rule_of_name_unique _ _ _ Hnd Hin0 Hin). congruence.
      - by destruct (Hnone r Hin). }
    destruct (set_maximum_iwo_given pd r r' Hname Hv) as [-> Hq]; [|done].
    unfold ReaderSettings.set_maximum_iwo. by rewrite decide_True.
Qed.

Lemma maximum_iwo_stored_witness :
  ReaderSettings._read_settings Samples.workload_data Samples.settings_no_goals
  = OK Layout.workload_settings
  /\ exists total, py_sum (Index_IWOs Samples.workload_data) = OK total
                   /\ Accessors.get_maximum_iwo Layout.workload_settings = JInt total.
Proof.
  split; [vm_compute; reflexivity|].
  destruct (maximum_iwo_stored Samples.workload_data Samples.settings_no_goals
              Layout.workload_settings {| Goals := None; Rules := None |})
    as [H _]; [vm_compute; reflexivity | reflexivity |].
  apply H. intros r Hin. by inversion Hin.
Defined.

(** X8: once the settings are accepted, [get_time_limit] returns 999999 when
    the settings give no "Time Limit", and otherwise the given value, which
    is a number of at least 0: a negative or non-numeric time limit is
    rejected. *)
Theorem time_limit_stored (pd : problem_data) (s : settings) (sd : settings_data) :
  ReaderSettings._read_settings pd s = OK sd ->
  match Time_Limit s with
  | None => Accessors.get_time_limit sd = JInt 999999
  | Some v => Accessors.get_time_limit sd = v
              /\ exists q, json_number v = Some q /\ (0 <= q)%Q
  end.
Proof.
  intros H. apply read_settings_parts in H as (opts & _ & _ & _ & _ & Htl).
  unfold Accessors.get_time_limit.
  destruct (Time_Limit s) as [v|]; [|done].
  destruct Htl as (-> & _ & Hge). split; [done|].
  unfold json_ge in Hge. destruct (json_number v) as [q|]; [|discriminate].
  inversion Hge as [Hle]. apply Qle_bool_iff in Hle. eauto.
Qed.

Lemma time_limit_stored_witness :
  ReaderSettings._read_settings Samples.workload_data Samples.settings_no_goals
  = OK Layout.workload_settings
  /\ Accessors.get_time_limit Layout.workload_settings = JInt 999999.
Proof.
  split; [vm_compute; reflexivity|].
  apply (time_limit_stored Samples.workload_data Samples.settings_no_goals
           Layout.workload_settings).
  vm_compute; reflexivity.
Defined.

(** * Further properties of the Goal class *)

Section GoalFurther.
Import modelize.

(** X9: [add_as_objective] never removes what an earlier goal installed: for
    goals built by [__init__], installing a second objective on the same
    model leaves the model with both equalities on the one objective
    variable, and minimises that variable; an assignment feasible for the
    model gives the two goal expressions the same value. *)
Theorem objectives_accumulate
    (name1 name2 : string) (t1 t2 : Q) (g1 g2 : goal) (m : Model) :
  Goal.__init__ name1 t1 = OK g1 ->
  Goal.__init__ name2 t2 = OK g2 ->
  exists e1 e2,
    constraints (Goal.add_as_objective g2 (Goal.add_as_objective g1 m))
    = constraints m ++ [EqExpr (objective m) e1; EqExpr (objective m) e2]
    /\ minimized (Goal.add_as_objective g2 (Goal.add_as_objective g1 m))
       = Some (objective m)
    /\ constraints (Goal.add_as_objective g1 m)
       = constraints m ++ [EqExpr (objective m) e1]
    /\ constraints (Goal.add_as_objective g2 m)
       = constraints m ++ [EqExpr (objective m) e2]
    /\ forall a : assignment,
         feasible a (Goal.add_as_objective g2 (Goal.add_as_objective g1 m)) ->
         eval a e1 = eval a e2.
Proof.
  intros (Hn1 & _ & ->)%init_OK (Hn2 & _& ->)%init_OK.
  assert (Hfeas : forall e1 e2 (m' : Model) (a : assignment),
             constraints m' = constraints m ++ [EqExpr (objective m) e1;
                                                EqExpr (objective m) e2] ->
             feasible a m' -> eval a e1 = eval a e2).
  { intros e1 e2 m' a Hc Hf. unfold feasible in Hf. rewrite Hc in Hf.
    apply Forall_app in Hf as [_ Hf].
    apply Forall_cons in Hf as [H1 Hf]. apply Forall_cons in Hf as [H2 _].
    simpl in H1, H2. congruence. }
  unfold Goal._names in Hn1, Hn2.
  repeat (apply elem_of_cons in Hn1 as [->|Hn1]);
    [ | | | by apply elem_of_nil in Hn1 ];
    (repeat (apply elem_of_cons in Hn2 as [->|Hn2]);
     [ | | | by apply elem_of_nil in Hn2 ]);
    eexists _, _;
    (split; [unfold Goal.add_as_objective; simpl;
             by rewrite <- app_assoc | ]);
    (split; [reflexivity|]); (split; [reflexivity|]); (split; [reflexivity|]);
    intros a; apply Hfeas; unfold Goal.add_as_objective; simpl;
    by rewrite <- app_assoc.
Qed.

Lemma objectives_accumulate_witness :
  exists e1 e2,
    constraints (Goal.add_as_objective
                   {| _name := Goal.Minimal_Indexes; _tolerance := 0; _value := None |}
                   (Goal.add_as_objective
                      {| _name := Goal.Minimal_Cost; _tolerance := 0; _value := None |}
                      GoalSamples.model_0))
    = [EqExpr Objective_var e1; EqExpr Objective_var e2].
Proof.
  destruct (objectives_accumulate Goal.Minimal_Cost Goal.Minimal_Indexes 0 0
              {| _name := Goal.Minimal_Cost; _tolerance := 0; _value := None |}
              {| _name := Goal.Minimal_Indexes; _tolerance := 0; _value := None |}
              GoalSamples.model_0)
    as (e1 & e2 & H & _); [vm_compute; reflexivity | vm_compute; reflexivity |].
  exists e1, e2. exact H.
Defined.




(** With a negative value the bound falls below the value: the constraint
    would rule out the very assignment that achieved it. *)
Example constraint_bound_negative_value :
  Goal.constraint_bound
    {| _name := Goal.Minimal_Cost; _tolerance := 1 # 2; _value := Some (-10)%Q |}
  = OK (-15).
Proof. reflexivity. Qed.

End GoalFurther.

(** * Further properties of the results extractor *)

Lemma classify_within (tr : translation) (pd : problem_data) (l : list Z) :
  forall (k : nat) (st : list index_result * list index_result),
    (k + length l <= length (Index_OIDs tr))%nat ->
    exists st', for_each (Results.classify_index tr pd) st (zip (seq k (length l)) l)
                = OK st'.
Proof.
  induction l as [|v l IH]; intros k [ex po] Hl; cbn [length] in *.
  - by eexists.
  - cbn [seq zip_with for_each].
    destruct (Index_OIDs tr !! k) as [o|] eqn:Ho;
      [|apply lookup_ge_None in Ho; lia].
    rewrite (classify_index_step _ _ _ _ _ _ _ Ho).
    case_decide; cbn [mbind result_bind]; apply IH; lia.
Qed.

Lemma classify_index_out_of_range (tr : translation) (pd : problem_data)
    (st : list index_result * list index_result) (k : nat) (v : Z) :
  Index_OIDs tr !! k = None ->
  Results.classify_index tr pd st (k, v) = Raise IndexError.
Proof.
  intros Hk. unfold Results.classify_index, Results.get_index_oid, getitem.
  simpl. by rewrite Hk.
Qed.

(** X11: on a solution with more values than there are indexes the results
    extractor raises [IndexError]: the value past the last index has no
    OID. *)
Theorem results_indexes_too_long
    (tr : translation) (pd : problem_data) (last_solution : list Z) :
  (Results.get_num_indexes tr < length last_solution)%nat ->
  Results.results_indexes tr pd last_solution = Raise IndexError.
Proof.
  unfold Results.get_num_indexes, Results.results_indexes, Results.enumerate.
  intros Hlen. set (n := length (Index_OIDs tr)) in *.
  rewrite <- (take_drop n last_solution) at 1 2.
  rewrite enumerate_from_app, for_each_app.
  assert (Htake : length (take n last_solution) = n) by (rewrite length_take; lia).
  destruct (classify_within tr pd (take n last_solution) 0 ([], [])) as [st' ->];
    [lia|].
  cbn [mbind result_bind]. rewrite Htake.
  destruct (drop n last_solution) as [|v rest] eqn:Hdrop.
  { apply (f_equal length) in Hdrop. rewrite length_drop in Hdrop. simpl in Hdrop. lia. }
  cbn [length seq zip_with for_each].
  rewrite classify_index_out_of_range; [reflexivity|].
  apply lookup_ge_None. fold n. lia.
Qed.

Lemma results_indexes_too_long_witness :
  Results.results_indexes Samples.workload_translation Samples.workload_data [1; 0; 1]
  = Raise IndexError.
Proof.
  apply results_indexes_too_long. vm_compute; lia.
Defined.

(** ** The solutions *)

Lemma dict_set_keys_new {V : Type} (d : list (string * V)) (k : string) (v : V) :
  k ∉ d.*1 -> Solutions.dict_set d k v = d ++ [(k, v)].
Proof.
  induction d as [|[k' v'] d IH]; intros Hk; [done|].
  simpl. rewrite decide_False.
  - f_equal. apply IH. intros Hin. apply Hk. by right.
  - intros ->. apply Hk. by left.
Qed.

Lemma dict_set_keys_old {V : Type} (d : list (string * V)) (k : string) (v : V) :
  k ∈ d.*1 -> (Solutions.dict_set d k v).*1 = d.*1.
Proof.
  induction d as [|[k' v'] d IH]; intros Hk; [by inversion Hk|].
  simpl. case_decide as Hd; simpl; [by subst|].
  f_equal. apply IH. apply elem_of_cons in Hk as [Hk|Hk]; [by destruct Hd|done].
Qed.

Lemma dict_get_set {V : Type} (d : list (string * V)) (k k' : string) (v : V) :
  Solutions.dict_get (Solutions.dict_set d k v) k'
  = if decide (k = k') then Some v else Solutions.dict_get d k'.
Proof.
  induction d as [|[k0 v0] d IH]; simpl.
  - by case_decide.
  - destruct (decide (k0 = k)) as [->|Hne]; simpl.
    + destruct (decide (k = k')); [done|done].
    + destruct (decide (k0 = k')) as [->|Hne'].
      * by rewrite decide_False.
      * exact IH.
Qed.

(** X12: the solution that [get_results] takes for final is the one under
    the last key of the dictionary, not the one stored last.  Storing the
    solution of a goal that has none yet makes it the final one and adds its
    entry at the end of the ["Goals"] list; storing again for a goal that
    already has one replaces that solution in place, leaves the order of the
    goals as it was and, unless that goal is the last, leaves the final
    solution as it was.  In both cases the stored solution is the one read
    back for that goal and the other goals keep theirs. *)
Theorem add_solution_order
    (solutions : list (string * solution)) (goal : string) (s : solution) :
  (goal ∉ solutions.*1 ->
     Solutions.last_solution (Solutions.add_solution solutions goal s)
     = OK (solution_x s)
     /\ Solutions.results_goals (Solutions.add_solution solutions goal s)
        = Solutions.results_goals solutions ++ [(goal, Objective_Value_Real s)])
  /\ (goal ∈ solutions.*1 ->
        (Solutions.add_solution solutions goal s).*1 = solutions.*1
        /\ forall other s', last solutions = Some (other, s') -> other <> goal ->
             Solutions.last_solution (Solutions.add_solution solutions goal s)
             = Solutions.last_solution solutions)
  /\ forall goal',
       Solutions.dict_get (Solutions.add_solution solutions goal s) goal'
       = if decide (goal = goal') then Some s else Solutions.dict_get solutions goal'.
Proof.
  unfold Solutions.add_solution. split; [|split].
  - intros Hnew. rewrite dict_set_keys_new by done. split.
    + unfold Solutions.last_solution. by rewrite last_snoc.
    + unfold Solutions.results_goals. by rewrite fmap_app.
  - intros Hold. split; [by apply dict_set_keys_old|].
    intros other s' Hlast Hne. unfold Solutions.last_solution. rewrite Hlast.
    enough (last (Solutions.dict_set solutions goal s) = Some (other, s')) as ->
      by done.
    revert Hold Hlast. induction solutions as [|[k0 v0] d IH]; intros Hold Hlast;
      [done|].
    simpl. destruct d as [|[k1 v1] d].
    + simpl in Hlast, Hold. inversion Hlast; subst.
      apply elem_of_cons in Hold as [->|Hold]; [done|by inversion Hold].
    + case_decide as Hk; [done|].
      apply elem_of_cons in Hold as [->|Hold]; [done|].
      specialize (IH Hold Hlast).
      simpl in IH |- *. destruct (decide (k1 = goal)); exact IH.
  - intros goal'. apply dict_get_set.
Qed.

(** Before any solution is stored there is no final solution to read. *)
Example last_solution_empty : Solutions.last_solution [] = Raise IndexError.
Proof. reflexivity. Qed.

(** X13: the counts of used existing and of used possible indexes add up to
    the sum of the solution; on a solution of zeros and ones they lie
    between 0 and the number of values on their side of the split. *)
Theorem indexes_used_split (pd : problem_data) (last_solution : list Z) :
  Solutions.indexes_used_existing pd last_solution
  + Solutions.indexes_used_possible pd last_solution
  = Solutions.sum_ints last_solution
  /\ (Forall (fun v => v = 0 \/ v = 1) last_solution ->
      0 <= Solutions.indexes_used_existing pd last_solution
        <= Z.of_nat (Nat.min (Results.get_num_eind pd) (length last_solution))
      /\ 0 <= Solutions.indexes_used_possible pd last_solution
           <= Z.of_nat (length last_solution - Results.get_num_eind pd)).
Proof.
  assert (Happ : forall l1 l2,
             Solutions.sum_ints (l1 ++ l2)
             = Solutions.sum_ints l1 + Solutions.sum_ints l2).
  { induction l1 as [|z l1 IH]; intros l2; simpl; [done|]. rewrite IH. lia. }
  assert (Hbits : forall l, Forall (fun v => v = 0 \/ v = 1) l ->
             0 <= Solutions.sum_ints l <= Z.of_nat (length l)).
  { induction 1 as [|z l [->| ->] _ IH]; simpl; lia. }
  unfold Solutions.indexes_used_existing, Solutions.indexes_used_possible.
  split.
  - by rewrite <- Happ, take_drop.
  - intros Hall. split.
    + rewrite <- length_take. apply Hbits. by apply Forall_take.
    + rewrite <- length_drop. apply Hbits. by apply Forall_drop.
Qed.

(** ** The translation tables *)

(** X14: looking an identifier up and reading the table at the position
    found gives the identifier back; reading the table at a position and
    looking the identifier up gives a position that is not after it, and the
    same position exactly when the identifiers before it differ from it (so
    always, when the scan IDs are distinct). *)
Theorem scan_translation_round_trip (tr : translation) :
  (forall id j, tuple_index (Scan_IDs tr) id = OK j ->
                Accessors.get_scan_id tr j = OK id)
  /\ (forall j id, Accessors.get_scan_id tr j = OK id ->
        exists j', tuple_index (Scan_IDs tr) id = OK j' /\ (j' <= j)%nat
                   /\ Accessors.get_scan_id tr j' = OK id)
  /\ (NoDup (Scan_IDs tr) ->
      forall j id, Accessors.get_scan_id tr j = OK id ->
                   tuple_index (Scan_IDs tr) id = OK j).
Proof.
  unfold Accessors.get_scan_id, getitem, tuple_index.
  assert (Hfirst : forall (l : list string) id j,
             l !! j = Some id ->
             exists j', index_of id l = Some j' /\ (j' <= j)%nat).
  { induction l as [|y l IH]; intros id j Hj; [done|].
    simpl. destruct (decide (y = id)) as [->|Hne]; [exists 0%nat; split; [done|lia]|].
    destruct j as [|j]; [simpl in Hj; congruence|].
    destruct (IH id j Hj) as (j' & -> & Hle). exists (S j'). split; [done|lia]. }
  split; [|split].
  - intros id j H. destruct (index_of id (Scan_IDs tr)) as [i|] eqn:Hi; [|done].
    inversion H; subst. by rewrite (index_of_Some _ _ _ Hi).
  - intros j id H. destruct (Scan_IDs tr !! j) as [x|] eqn:Hx; [|done].
    inversion H; subst. destruct (Hfirst _ _ _ Hx) as (j' & Hj' & Hle).
    exists j'. rewrite Hj'. split; [done|]. split; [done|].
    by rewrite (index_of_Some _ _ _ Hj').
  - intros Hnd j id H. destruct (Scan_IDs tr !! j) as [x|] eqn:Hx; [|done].
    inversion H; subst. by rewrite (index_of_NoDup _ _ _ Hnd Hx).
Qed.

Lemma add_solution_order_witness :
  Solutions.last_solution
    (Solutions.add_solution [] "Minimal Cost"
       {| solution_x := [1; 1]; Objective_Value_Real := 130 |})
  = OK [1; 1].
Proof.
  apply (proj1 (add_solution_order [] "Minimal Cost"
                  {| solution_x := [1; 1]; Objective_Value_Real := 130 |})).
  intros Hin. by inversion Hin.
Defined.

Lemma indexes_used_split_witness :
  0 <= Solutions.indexes_used_existing Samples.workload_data [1; 0] <= 1.
Proof.
  assert (Hbits : Forall (fun v => v = 0 \/ v = 1) [1; 0]).
  { apply Forall_cons. split; [by right|]. apply Forall_cons. split; [by left|].
    apply Forall_nil_2. }
  exact (proj1 (proj2 (indexes_used_split Samples.workload_data [1; 0]) Hbits)).
Defined.

Lemma scan_translation_round_trip_witness :
  Accessors.get_scan_id Samples.workload_translation 1 = OK "b".
Proof.
  apply (proj1 (scan_translation_round_trip Samples.workload_translation)).
  vm_compute; reflexivity.
Defined.

(** * Further properties of the deep copies *)

Section CopyProperties.
Import Store.

(** The content of a value depends only on the objects it leads to. *)
Lemma snapshot_agree_reach (n : nat) :
  forall (h h2 : list object) (v : value) (p : content),
    (forall l, reach h v l -> h2 !! l = h !! l) ->
    snapshot n h v = Some p -> snapshot n h2 v = Some p.
Proof.
  induction n as [|n IH]; intros h h2 v p Hagree H; destruct v as [a|t|l];
    cbn [snapshot] in *; try done.
  destruct (h !! l) as [o|] eqn:Ho; [|done].
  rewrite (Hagree l (reach_here h l o Ho)), Ho.
  destruct (mapM (snapshot n h) (fields o)) as [ps|] eqn:Hps; [|done].
  cbn [fmap option_fmap option_map] in H. inversion H; subst; clear H.
  apply mapM_Some in Hps.
  assert (Hps2 : mapM (snapshot n h2) (fields o) = Some ps).
  { apply mapM_Some. apply Forall2_same_length_lookup.
    split; [by eapply Forall2_length|].
    intros i w q Hw Hq.
    apply (IH h h2); [|by eapply (Forall2_lookup_lr _ _ _ _ _ _ Hps)].
    intros l' Hr. apply Hagree.
    apply (reach_field h l o w l' Ho); [by eapply list_elem_of_lookup_2 | done]. }
  by rewrite Hps2.
Qed.

Lemma mutate_all_outside (a b : nat) (ws : list (nat * object)) :
  forall h : list object,
    Forall (fun w => ~ (a <= w.1 < b)%nat) ws ->
    forall l, (a <= l < b)%nat -> mutate_all h ws !! l = h !! l.
Proof.
  induction ws as [|w ws IH]; intros h Hws l Hl; [done|].
  apply Forall_cons in Hws as [Hw Hws].
  unfold mutate_all in *. simpl. rewrite IH by done.
  unfold mutate. apply list_lookup_insert_ne. intros Heq. apply Hw. by rewrite Heq.
Qed.

(** X15: a structure handed out by an accessor changes only through writes
    to its own objects: whatever is stored later, and whatever is written to
    the Reader's own objects, to objects created later or to other copies,
    the returned value keeps the content it was returned with. *)
Theorem returned_copy_is_independent
    (a : accessor) (n : nat) (rd : reader) (h h1 : list object) (v1 : value)
    (p : content) :
  snapshot n h (VRef (stored rd a)) = Some p ->
  call a n rd h = Some (h1, v1) ->
  forall (ext : list object) (ws : list (nat * object)),
    Forall (fun w => ~ (length h <= w.1 < length h1)%nat) ws ->
    snapshot n (mutate_all (h1 ++ ext) ws) v1 = Some p.
Proof.
  intros Hp Hcall ext ws Hws.
  destruct (deepcopy_spec n h _ p Hp) as (h1' & v1' & Hdc & _ & Hsnap & Hreach).
  rewrite call_deepcopy, Hdc in Hcall. inversion Hcall; subst; clear Hcall.
  apply (snapshot_agree_reach n (h1 ++ ext)); [|apply Hsnap].
  intros l Hl. apply (mutate_all_outside (length h) (length h1)); [done|].
  by apply Hreach in Hl.
Qed.

(** X16: two calls of accessors never hand out the same object: the
    structures returned by a first and by a second call have no object in
    common, and each has the content of the dictionary it was copied
    from. *)
Theorem copies_share_nothing
    (a a' : accessor) (n : nat) (rd : reader) (h : list object) (p p' : content) :
  snapshot n h (VRef (stored rd a)) = Some p ->
  snapshot n h (VRef (stored rd a')) = Some p' ->
  exists h1 v1 h2 v2,
    call a n rd h = Some (h1, v1)
    /\ call a' n rd h1 = Some (h2, v2)
    /\ snapshot n h2 v1 = Some p
    /\ snapshot n h2 v2 = Some p'
    /\ forall l, reach h2 v1 l -> reach h2 v2 l -> False.
Proof.
  intros Hp Hp'.
  destruct (deepcopy_spec n h _ p Hp) as (h1 & v1 & Hdc & [new ->] & Hsnap & Hreach).
  assert (Hp1 : snapshot n (h ++ new) (VRef (stored rd a')) = Some p')
    by (by apply snapshot_extend).
  destruct (deepcopy_spec n _ _ p' Hp1)
    as (h2 & v2 & Hdc2 & [new2 ->] & Hsnap2 & Hreach2).
  exists (h ++ new), v1, ((h ++ new) ++ new2), v2.
  rewrite !call_deepcopy. split; [done|]. split; [done|].
  split; [apply Hsnap|].
  split; [by rewrite <- (app_nil_r ((h ++ new) ++ new2)) at 1|].
  intros l Hl1 Hl2. apply Hreach in Hl1.
  rewrite <- (app_nil_r ((h ++ new) ++ new2)) in Hl2. apply Hreach2 in Hl2. lia.
Qed.

Lemma returned_copy_is_independent_witness :
  exists h1 v1,
    get_problem 4 Layout.workload_store.2 Layout.workload_store.1 = Some (h1, v1)
    /\ snapshot 4 (mutate_all (h1 ++ [])
                     [(_problem Layout.workload_store.2, Layout.emptied)]) v1
       = Some (Layout.content_of_problem_data Samples.workload_data).
Proof.
  destruct (get_problem 4 Layout.workload_store.2 Layout.workload_store.1)
    as [[h1 v1]|] eqn:Hcall; [|vm_compute in Hcall; discriminate].
  exists h1, v1. split; [reflexivity|].
  apply (returned_copy_is_independent Get_problem 4 Layout.workload_store.2
           Layout.workload_store.1 h1 v1);
    [vm_compute; reflexivity | exact Hcall |].
  repeat constructor. vm_compute. lia.
Defined.

Lemma copies_share_nothing_witness :
  exists h1 v1 h2 v2,
    get_problem 4 Layout.workload_store.2 Layout.workload_store.1 = Some (h1, v1)
    /\ get_settings 4 Layout.workload_store.2 h1 = Some (h2, v2)
    /\ snapshot 4 h2 v2 = Some (Layout.content_of_settings Layout.workload_settings).
Proof.
  destruct (copies_share_nothing Get_problem Get_settings 4 Layout.workload_store.2
              Layout.workload_store.1
              (Layout.content_of_problem_data Samples.workload_data)
              (Layout.content_of_settings Layout.workload_settings))
    as (h1 & v1 & h2 & v2 & H1 & H2 & _ & H4 & _);
    [vm_compute; reflexivity | vm_compute; reflexivity |].
  exists h1, v1, h2, v2. split; [exact H1|]. split; [exact H2 | exact H4].
Defined.

End CopyProperties.

(** * Further properties of the scaling *)







(** A cost of 99.999 against a sequential cost of 100: both are upscaled to
    10000, and the index does not cover the scan. *)
Example upscale_loses_strictness :
  Reader._upscale (99999 # 1000) = 10000 /\ Reader._upscale 100 = 10000.
Proof. split; reflexivity. Qed.

(** * Accepted inputs *)

Lemma for_each_body_OK {S A : Type} (body : S -> A -> result S) (l : list A) (x : A) :
  x ∈ l ->
  forall s s', for_each body s l = OK s' -> exists s1 s2, body s1 x = OK s2.
Proof.
  intros Hin. induction l as [|y l IH]; intros s s' H; [by inversion Hin|].
  cbn [for_each] in H. apply bind_OK in H as (s1 & Hstep & H).
  apply elem_of_cons in Hin as [->|Hin]; [eauto | by eapply IH].
Qed.

(** X19: a workload that the Reader accepts is closed: every scan has a
    sequential cost, the scan table holds the IDs of all the scans in their
    order, and every index OID that a scan lists a cost for is the OID of an
    existing or possible index. *)
Theorem accepted_workload_is_closed
    (p : problem) (tr : translation) (pd : problem_data) :
  Reader._read_problem p = OK (tr, pd) ->
  Forall (fun sc => sequential_scan_cost sc <> None) (Scans p)
  /\ Scan_IDs tr = scan_id <$> Scans p
  /\ Results.get_num_scans tr = length (Scans p)
  /\ forall sc ic, sc ∈ Scans p -> ic ∈ index_costs_of sc ->
       ic_oid ic ∈ (index_oid <$> (Existing_Indexes p ++ Possible_Indexes p)).
Proof.
  intros Hread.
  apply read_problem_parts in Hread
    as (Htr & _ & seq & costs & iwos & costs_r & Hloop & _ & _ & _).
  pose proof (read_scans_all_costed _ _ _ _ Hloop) as Hall.
  assert (Hids : Scan_IDs tr = scan_id <$> Scans p).
  { rewrite Htr. simpl. f_equal. by apply filter_all. }
  split; [done|]. split; [done|].
  split; [unfold Results.get_num_scans; by rewrite Hids, length_fmap|].
  intros sc ic Hsc Hic.
  destruct (for_each_body_OK _ _ sc Hsc _ _ Hloop) as ([seq1 m1] & st2 & Hstep).
  unfold Reader.read_scan in Hstep.
  apply bind_OK in Hstep as (j0 & _ & Hstep).
  apply bind_OK in Hstep as (s & _ & Hstep).
  apply bind_OK in Hstep as (seq2 & _ & Hstep).
  apply bind_OK in Hstep as (m2 & Hinner & _).
  destruct (for_each_body_OK _ _ ic Hic _ _ Hinner) as (m3 & m4 & Hcost).
  unfold Reader.read_index_cost in Hcost.
  apply bind_OK in Hcost as (idx & Hidx%tuple_index_OK%index_of_Some & _).
  rewrite Htr in Hidx. simpl in Hidx. by eapply list_elem_of_lookup_2.
Qed.

Lemma accepted_workload_is_closed_witness :
  Reader._read_problem Samples.workload
  = OK (Samples.workload_translation, Samples.workload_data)
  /\ Scan_IDs Samples.workload_translation = scan_id <$> Scans Samples.workload.
Proof.
  split; [vm_compute; reflexivity|].
  apply (accepted_workload_is_closed Samples.workload Samples.workload_translation
           Samples.workload_data).
  vm_compute; reflexivity.
Defined.

Lemma set_default_value_other (pd : problem_data) (r : rule) :
  rule_Name r <> ReaderSettings.Maximum_Number_of_Possible_Indexes ->
  rule_Name r <> ReaderSettings.Maximum_Index_Write_Overhead ->
  ReaderSettings.set_default_value pd r = OK r.
Proof.
  intros H1 H2.
  unfold ReaderSettings.set_default_value, ReaderSettings.set_maximum_num_indexes.
  rewrite decide_False by done. simpl.
  unfold ReaderSettings.set_maximum_iwo. by rewrite decide_False.
Qed.

(** X20: once the settings are accepted, the stored rules are the given
    rules, in their order, followed by the default rules that were missing;
    their names are distinct and include both default names; the goals are
    stored as given, whatever their names; and a rule of any other name is
    stored unchanged. *)
Theorem stored_settings_shape
    (pd : problem_data) (s : settings) (sd : settings_data) :
  ReaderSettings._read_settings pd s = OK sd ->
  exists opts : options,
    let given := default [] (Rules opts) in
    Options s = Some opts
    /\ settings_Goals sd = default ReaderSettings.default_goals (Goals opts)
    /\ rule_Name <$> settings_Rules sd
       = (rule_Name <$> given)
         ++ filter (fun n => n ∉ (rule_Name <$> given))
              [ ReaderSettings.Maximum_Number_of_Possible_Indexes;
                ReaderSettings.Maximum_Index_Write_Overhead ]
    /\ NoDup (rule_Name <$> settings_Rules sd)
    /\ ReaderSettings.Maximum_Number_of_Possible_Indexes ∈ (rule_Name <$> settings_Rules sd)
    /\ ReaderSettings.Maximum_Index_Write_Overhead ∈ (rule_Name <$> settings_Rules sd)
    /\ forall (k : nat) (r : rule),
         given !! k = Some r ->
         rule_Name r <> ReaderSettings.Maximum_Number_of_Possible_Indexes ->
         rule_Name r <> ReaderSettings.Maximum_Index_Write_Overhead ->
         settings_Rules sd !! k = Some r.
Proof.
  intros H. apply read_settings_parts in H as (opts & Ho & Hnd & Hmap & Hgoals & _).
  exists opts. cbn zeta in *. set (given := default [] (Rules opts)) in *.
  set (rules1 := given ++ filter (fun d => rule_Name d ∉ (rule_Name <$> given))
                            ReaderSettings._rule_defaults) in *.
  assert (Hnames : rule_Name <$> settings_Rules sd = rule_Name <$> rules1).
  { symmetry. clear -Hmap. induction Hmap as [|a b l l' Hab _ IH]; [done|].
    rewrite !fmap_cons, IH. f_equal. symmetry. by eapply set_default_value_name. }
  destruct (rules_with_defaults given _ Hnd (or_introl eq_refl))
    as (Hnd1 & r1 & Hin1 & Hn1 & _).
  destruct (rules_with_defaults given _ Hnd (or_intror eq_refl))
    as (_ & r2 & Hin2 & Hn2 & _).
  fold rules1 in Hnd1, Hin1, Hin2.
  split; [done|]. split; [done|]. split.
  { rewrite Hnames. unfold rules1. rewrite fmap_app. f_equal.
    unfold ReaderSettings._rule_defaults.
    rewrite !filter_cons, !filter_nil. simpl.
    repeat case_decide; reflexivity. }
  split; [by rewrite Hnames|].
  split; [rewrite Hnames, <- Hn1; by apply list_elem_of_fmap_2|].
  split; [rewrite Hnames, <- Hn2; by apply list_elem_of_fmap_2|].
  intros k r Hk Hne1 Hne2.
  assert (Hk1 : rules1 !! k = Some r) by (by apply lookup_app_l_Some).
  destruct (Forall2_lookup_l _ _ _ _ _ Hmap Hk1) as (r' & Hk' & Hr').
  rewrite (set_default_value_other pd r Hne1 Hne2) in Hr'. congruence.
Qed.

Lemma stored_settings_shape_witness :
  exists opts : options,
    Options Samples.settings_no_goals = Some opts
    /\ settings_Goals Layout.workload_settings
       = default ReaderSettings.default_goals (Goals opts).
Proof.
  destruct (stored_settings_shape Samples.workload_data Samples.settings_no_goals
              Layout.workload_settings)
    as (opts & Ho & Hg & _); [vm_compute; reflexivity|].
  exists opts. split; [exact Ho | exact Hg].
Defined.
